(** * Dashcam stitch converter: grouping and stitching pipeline

    A shallow embedding of [converter.py]: the filename parser
    ([VideoFileInfo.from_path]), the grouper ([parse_files]), the stitch job
    ([stitch_group]), the parallel orchestrator ([stitch_all]) and the
    concatenator ([combine_clips]), followed by the properties of each.

    Conventions of the embedding.
    - A Python [str] is a [string]; the models of [int], [strptime] and the
      glob match read its characters as ASCII, which is what the naming
      convention of the camera produces.  (Python also reads non-ASCII
      decimal digits as digits; those inputs are outside the model.)
    - Python's unbounded [int] is [Z].
    - A raised exception is a value of [exn]; fallible code returns
      [result].
    - A generator is the trace it produces when drained. *)

From Stdlib Require Import ZArith Ascii String List Bool Lia.
From Stdlib Require Import Sorting.Sorted Sorting.Permutation.
From stdpp Require Import base option list sorting strings pretty gmap.

Local Open Scope string_scope.
Local Open Scope Z_scope.

(** ** Exceptions and results *)

(** The payload of the [ValueError]s the parser can meet: what the
    exception's [args] hold in CPython. *)
Inductive value_error :=
  | NotEnoughValues (expected got : nat)
      (* "not enough values to unpack (expected 5, got n)" *)
  | TooManyValues (expected : nat)
      (* "too many values to unpack (expected 5)" *)
  | InvalidLiteral (literal : string)
      (* "invalid literal for int() with base 10: '...'" *)
  | ExceedsDigitLimit (limit digits : nat)
      (* "Exceeds the limit (4300 digits) for integer string conversion" *)
  | TimeDataMismatch (data format : string)
      (* "time data '...' does not match format '...'" *)
  | UnconvertedData (rest : string)
      (* "unconverted data remains: ..." *)
  | FieldOutOfRange (field : string) (value : Z)
      (* "year 0 is out of range", "day is out of range for month",
         "second must be in 0..59" *)
  | NotAValidMember (value enum_name : string)
      (* "'X' is not a valid VideoType" *)
  | BadMaxWorkers.
      (* "max_workers must be greater than 0" *)

Inductive exn :=
  | ValueError (reason : value_error)
  | IndexError
  | StopIteration
  | RuntimeError (message : string) (cause : exn)
  | FfmpegError (stderr : string)
  | CalledProcessError (returncode : Z)
  | FileNotFoundError (filename : string)
  | OSError (message : string).

Inductive result (A : Type) :=
  | Ok (a : A)
  | Raise (e : exn).
Arguments Ok {A} a.
Arguments Raise {A} e.

(** [result] is an error monad; sequencing uses stdpp's [x ← r; k]. *)
#[global] Instance result_ret : MRet result := fun A a => Ok a.
#[global] Instance result_bind : MBind result := fun A B k r =>
  match r with
  | Ok a => k a
  | Raise e => Raise e
  end.

Definition is_ok {A} (r : result A) : bool :=
  match r with Ok _ => true | Raise _ => false end.

(** ** Strings *)

Module Str.

Definition code (c : ascii) : Z := Z.of_N (N_of_ascii c).

Definition is_digit (c : ascii) : bool :=
  (48 <=? code c) && (code c <=? 57).

Definition digit_value (c : ascii) : Z := code c - 48.

(** The characters [int] skips around a literal: tab, LF, VT, FF, CR and
    space. *)
Definition is_space (c : ascii) : bool :=
  ((9 <=? code c) && (code c <=? 13)) || (code c =? 32).

Definition lower (c : ascii) : ascii :=
  if (65 <=? code c) && (code c <=? 90)
  then ascii_of_N (N_of_ascii c + 32)
  else c.

Fixpoint lowercase (s : string) : string :=
  match s with
  | EmptyString => EmptyString
  | String c s' => String (lower c) (lowercase s')
  end.

(** [s.split(sep)] for a one-character separator: never empty. *)
Fixpoint split (sep : ascii) (s : string) : list string :=
  match s with
  | EmptyString => [EmptyString]
  | String c s' =>
      if Ascii.eqb c sep then EmptyString :: split sep s'
      else match split sep s' with
           | tok :: toks => String c tok :: toks
           | [] => [String c EmptyString]
           end
  end.

(** [s.rfind(c)]: the index of the last occurrence, [-1] when absent. *)
Fixpoint rfind_from (c : ascii) (s : string) (i : Z) (last : Z) : Z :=
  match s with
  | EmptyString => last
  | String c' s' =>
      rfind_from c s' (i + 1) (if Ascii.eqb c' c then i else last)
  end.

Definition rfind (c : ascii) (s : string) : Z := rfind_from c s 0 (-1).

Definition len (s : string) : Z := Z.of_nat (String.length s).

(** [s[:i]] for [0 <= i]. *)
Definition prefix_to (i : Z) (s : string) : string :=
  substring 0 (Z.to_nat i) s.

(** [s[-n:]] for [n <= len s]. *)
Definition suffix_of (n : nat) (s : string) : string :=
  substring (String.length s - n) n s.

End Str.

(** ** The Python library functions the parser calls *)

Module Py.

(** *** [int(str)], base 10

    Leading and trailing whitespace is skipped, one sign is allowed, at
    least one digit is required, and a literal of more than
    [int_max_str_digits] digits is refused (the interpreter's default
    limit).  The digit separator [_] is left out: the parser only passes
    tokens obtained from [split('_')]. *)

Definition int_max_str_digits : nat := 4300.

Fixpoint lstrip (s : string) : string :=
  match s with
  | String c s' => if Str.is_space c then lstrip s' else s
  | EmptyString => EmptyString
  end.

Fixpoint all_space (s : string) : bool :=
  match s with
  | String c s' => Str.is_space c && all_space s'
  | EmptyString => true
  end.

(** The longest prefix of digits, as digit values, and what follows. *)
Fixpoint span_digits (s : string) : list Z * string :=
  match s with
  | String c s' =>
      if Str.is_digit c
      then let '(ds, rest) := span_digits s' in (Str.digit_value c :: ds, rest)
      else ([], s)
  | EmptyString => ([], EmptyString)
  end.

Definition digits_value (ds : list Z) : Z :=
  fold_left (fun acc d => 10 * acc + d) ds 0.

Definition strip_sign (s : string) : bool * string :=
  match s with
  | String "+" s' => (false, s')
  | String "-" s' => (true, s')
  | _ => (false, s)
  end.

Definition int (s : string) : result Z :=
  let '(negative, body) := strip_sign (lstrip s) in
  let '(ds, rest) := span_digits body in
  match ds with
  | [] => Raise (ValueError (InvalidLiteral s))
  | _ :: _ =>
      if (int_max_str_digits <? length ds)%nat
      then Raise (ValueError (ExceedsDigitLimit int_max_str_digits (length ds)))
      else if all_space rest
      then Ok (if negative then - digits_value ds else digits_value ds)
      else Raise (ValueError (InvalidLiteral s))
  end.

(** *** The regular expressions of [_strptime]

    Every directive of the two formats compiles to a group of ordered
    alternatives, each a fixed sequence of one-character classes.
    [re.match] tries the alternatives in order and backtracks into an
    earlier group when a later one fails. *)

Inductive cclass :=
  | Digit                       (* \d *)
  | Range (lo hi : ascii)       (* [lo-hi] *)
  | Lit (c : ascii).

Definition cclass_match (k : cclass) (c : ascii) : bool :=
  match k with
  | Digit => Str.is_digit c
  | Range lo hi => (Str.code lo <=? Str.code c) && (Str.code c <=? Str.code hi)
  | Lit c' => Ascii.eqb c c'
  end.

Definition alternative := list cclass.
Definition group := list alternative.

Fixpoint match_alt (a : alternative) (s : string) : option (string * string) :=
  match a with
  | [] => Some (EmptyString, s)
  | k :: a' =>
      match s with
      | String c s' =>
          if cclass_match k c
          then match match_alt a' s' with
               | Some (m, rest) => Some (String c m, rest)
               | None => None
               end
          else None
      | EmptyString => None
      end
  end.

Fixpoint try_alts (k : string -> option (list string * string))
    (g : group) (s : string) : option (list string * string) :=
  match g with
  | [] => None
  | a :: g' =>
      match match_alt a s with
      | Some (m, rest) =>
          match k rest with
          | Some (ms, rest') => Some (m :: ms, rest')
          | None => try_alts k g' s
          end
      | None => try_alts k g' s
      end
  end.

(** [re.match]: the captured groups and the unmatched remainder. *)
Fixpoint re_match (gs : list group) (s : string) : option (list string * string) :=
  match gs with
  | [] => Some ([], s)
  | g :: gs' => try_alts (re_match gs') g s
  end.

Definition re_Y : group := [[Digit; Digit; Digit; Digit]].
Definition re_m : group :=
  [[Lit "1"; Range "0" "2"]; [Lit "0"; Range "1" "9"]; [Range "1" "9"]].
Definition re_d : group :=
  [[Lit "3"; Range "0" "1"]; [Range "1" "2"; Digit]; [Lit "0"; Range "1" "9"];
   [Range "1" "9"]; [Lit " "; Range "1" "9"]].
Definition re_H : group :=
  [[Lit "2"; Range "0" "3"]; [Range "0" "1"; Digit]; [Digit]].
Definition re_M : group := [[Range "0" "5"; Digit]; [Digit]].
Definition re_S : group :=
  [[Lit "6"; Range "0" "1"]; [Range "0" "5"; Digit]; [Digit]].

(** *** [datetime] *)

Record datetime := mk_datetime {
  year : Z; month : Z; day : Z;
  hour : Z; minute : Z; second : Z
}.

Record time := mk_time { t_hour : Z; t_minute : Z; t_second : Z }.

Definition MINYEAR : Z := 1.
Definition MAXYEAR : Z := 9999.

Definition is_leap (y : Z) : bool :=
  (y mod 4 =? 0) && (negb (y mod 100 =? 0) || (y mod 400 =? 0)).

Definition days_in_month (y m : Z) : Z :=
  if (m =? 2) && is_leap y then 29
  else if m =? 2 then 28
  else if (m =? 4) || (m =? 6) || (m =? 9) || (m =? 11) then 30
  else 31.

(** The constructor's range checks. *)
Definition check_date_fields (y m d : Z) : result unit :=
  if negb ((MINYEAR <=? y) && (y <=? MAXYEAR))
  then Raise (ValueError (FieldOutOfRange "year" y))
  else if negb ((1 <=? m) && (m <=? 12))
  then Raise (ValueError (FieldOutOfRange "month" m))
  else if negb ((1 <=? d) && (d <=? days_in_month y m))
  then Raise (ValueError (FieldOutOfRange "day" d))
  else Ok tt.

Definition check_time_fields (h mi s : Z) : result unit :=
  if negb ((0 <=? h) && (h <=? 23))
  then Raise (ValueError (FieldOutOfRange "hour" h))
  else if negb ((0 <=? mi) && (mi <=? 59))
  then Raise (ValueError (FieldOutOfRange "minute" mi))
  else if negb ((0 <=? s) && (s <=? 59))
  then Raise (ValueError (FieldOutOfRange "second" s))
  else Ok tt.

Definition new_datetime (y m d h mi s : Z) : result datetime :=
  _ ← check_date_fields y m d;
  _ ← check_time_fields h mi s;
  Ok (mk_datetime y m d h mi s).

(** [_strptime]: match, then require that nothing is left over. *)
Definition strptime_groups (gs : list group) (format data : string)
    : result (list string) :=
  match re_match gs data with
  | None => Raise (ValueError (TimeDataMismatch data format))
  | Some (ms, EmptyString) => Ok ms
  | Some (_, rest) => Raise (ValueError (UnconvertedData rest))
  end.

(** [datetime.strptime(data, '%Y%m%d')] *)
Definition strptime_Ymd (data : string) : result datetime :=
  ms ← strptime_groups [re_Y; re_m; re_d] "%Y%m%d" data;
  match ms with
  | [y; m; d] =>
      y ← int y; m ← int m; d ← int d;
      new_datetime y m d 0 0 0
  | _ => Raise (ValueError (TimeDataMismatch data "%Y%m%d"))
  end.

(** [datetime.strptime(data, '%H%M%S')]: the date defaults to
    1900-01-01. *)
Definition strptime_HMS (data : string) : result datetime :=
  ms ← strptime_groups [re_H; re_M; re_S] "%H%M%S" data;
  match ms with
  | [h; mi; s] =>
      h ← int h; mi ← int mi; s ← int s;
      new_datetime 1900 1 1 h mi s
  | _ => Raise (ValueError (TimeDataMismatch data "%H%M%S"))
  end.

(** [dt.time()] *)
Definition time_of (dt : datetime) : time :=
  mk_time (hour dt) (minute dt) (second dt).

(** [datetime.combine(date, time)] *)
Definition combine (date : datetime) (t : time) : datetime :=
  mk_datetime (year date) (month date) (day date)
              (t_hour t) (t_minute t) (t_second t).

End Py.

(** ** Paths *)

Module Path.

(** A [pathlib.Path]: whether it starts at the root, and its
    components. *)
Record t := mk { anchored : bool; parts : list string }.

(** [source / child] *)
Definition joinpath (p : t) (child : string) : t :=
  mk (anchored p) (parts p ++ [child])%list.

(** [path.name]: the final component. *)
Definition name (p : t) : string := List.last (parts p) EmptyString.

(** [path.stem]: the name without its last suffix. *)
Definition stem (p : t) : string :=
  let n := name p in
  let i := Str.rfind "." n in
  if (0 <? i) && (i <? Str.len n - 1) then Str.prefix_to i n else n.

(** [str(path)] *)
Definition str (p : t) : string :=
  match anchored p, parts p with
  | false, [] => "."
  | false, ps => String.concat "/" ps
  | true, ps => String "/" (String.concat "/" ps)
  end.

(** Paths are ordered as the lists of the components of [str(path)],
    strings by code point and lists lexicographically. *)
Definition parts_normcase (p : t) : list string := Str.split "/" (str p).

Fixpoint list_ltb (l1 l2 : list string) : bool :=
  match l1, l2 with
  | [], [] => false
  | [], _ :: _ => true
  | _ :: _, [] => false
  | x :: l1', y :: l2' =>
      if String.eqb x y then list_ltb l1' l2' else String.ltb x y
  end.

Definition ltb (p q : t) : bool :=
  list_ltb (parts_normcase p) (parts_normcase q).

(** The match of [glob('*.mp4', case_sensitive=False)] on an entry name:
    the name ends in [.mp4], in any letter case. *)
Definition glob_match_mp4 (entry : string) : bool :=
  (4 <=? String.length entry)%nat
  && String.eqb (Str.lowercase (Str.suffix_of 4 entry)) ".mp4".

(** [source.glob('*.mp4', case_sensitive=False)], given the entries of
    the directory in the order the file system lists them. *)
Definition glob_mp4 (source : t) (entries : list string) : list t :=
  map (joinpath source) (List.filter glob_match_mp4 entries).

End Path.

(** ** [sorted] and [list.sort]: a stable sort that only uses [<] *)

Section Sorting.
Context {A : Type} (ltb : A -> A -> bool).

Fixpoint insert_sorted (x : A) (l : list A) : list A :=
  match l with
  | [] => [x]
  | y :: l' => if ltb y x then y :: insert_sorted x l' else x :: y :: l'
  end.

Fixpoint py_sorted (l : list A) : list A :=
  match l with
  | [] => []
  | x :: l' => insert_sorted x (py_sorted l')
  end.
End Sorting.

(** ** Data model *)

Module VideoType.
Inductive t := NORMAL | EVENT | PARKING.

Definition value (v : t) : string :=
  match v with NORMAL => "N" | EVENT => "E" | PARKING => "P" end.

(** [VideoType(value)]: lookup by value. *)
Definition of_value (s : string) : result t :=
  if String.eqb s "N" then Ok NORMAL
  else if String.eqb s "E" then Ok EVENT
  else if String.eqb s "P" then Ok PARKING
  else Raise (ValueError (NotAValidMember s "VideoType")).
End VideoType.

Module Position.
Inductive t := FRONT | INTERNAL | REAR.

Definition value (p : t) : string :=
  match p with FRONT => "A" | INTERNAL => "B" | REAR => "C" end.

Definition of_value (s : string) : result t :=
  if String.eqb s "A" then Ok FRONT
  else if String.eqb s "B" then Ok INTERNAL
  else if String.eqb s "C" then Ok REAR
  else Raise (ValueError (NotAValidMember s "Position")).

Definition eqb (p q : t) : bool :=
  match p, q with
  | FRONT, FRONT | INTERNAL, INTERNAL | REAR, REAR => true
  | _, _ => false
  end.
End Position.

Module VideoFileInfo.

Record t := mk {
  ts : Py.datetime;
  id : Z;
  video_type : VideoType.t;
  position : Position.t;
  file : Path.t
}.

(** [VideoFileInfo.from_path] *)
Definition from_path (path : Path.t) : result t :=
  match Str.split "_" (Path.stem path) with
  | [date; time; pk; video_type; position] =>
      pk ← Py.int pk;
      date ← Py.strptime_Ymd date;
      time ← Py.strptime_HMS time;
      let time := Py.time_of time in
      let ts := Py.combine date time in
      video_type ← VideoType.of_value video_type;
      position ← Position.of_value position;
      Ok (mk ts pk video_type position path)
  | tokens =>
      if (length tokens <? 5)%nat
      then Raise (ValueError (NotEnoughValues 5 (length tokens)))
      else Raise (ValueError (TooManyValues 5))
  end.

End VideoFileInfo.

Module FileGroup.

Record t := mk {
  ts : Py.datetime;
  pk : Z;
  files : list VideoFileInfo.t
}.

(** [next(file for file in self.files if file.position == position)]:
    the first match, [StopIteration] when there is none. *)
Fixpoint first_at (position : Position.t) (files : list VideoFileInfo.t)
    : result VideoFileInfo.t :=
  match files with
  | [] => Raise StopIteration
  | file :: files' =>
      if Position.eqb (VideoFileInfo.position file) position
      then Ok file
      else first_at position files'
  end.

Definition get_by_position (self : t) (position : Position.t)
    : result VideoFileInfo.t :=
  first_at position (files self).

End FileGroup.

(** ** The grouper *)

(** [defaultdict(list)]: the buckets in the order their keys first
    appeared. *)
Definition buckets := list (Z * list VideoFileInfo.t).

(** [groups[key].append(vf)] *)
Fixpoint bucket_append (key : Z) (vf : VideoFileInfo.t) (groups : buckets)
    : buckets :=
  match groups with
  | [] => [(key, [vf])]
  | (k, vfs) :: groups' =>
      if k =? key then (k, (vfs ++ [vf])%list) :: groups'
      else (k, vfs) :: bucket_append key vf groups'
  end.

(** The first loop of [parse_files]: parse every file and put it in its
    bucket; the first parser error ends the loop. *)
Fixpoint collect (files : list Path.t) (groups : buckets) : result buckets :=
  match files with
  | [] => Ok groups
  | file :: files' =>
      vf ← VideoFileInfo.from_path file;
      collect files' (bucket_append (VideoFileInfo.id vf) vf groups)
  end.

(** The second loop: one [FileGroup] per bucket, stamped with [files[0].ts]. *)
Fixpoint build_groups (groups : buckets) : result (list FileGroup.t) :=
  match groups with
  | [] => Ok []
  | (pk, files) :: groups' =>
      match files with
      | [] => Raise IndexError
      | first :: _ =>
          let fg := FileGroup.mk (VideoFileInfo.ts first) pk files in
          file_groups ← build_groups groups';
          Ok (fg :: file_groups)
      end
  end.

Definition pk_ltb (a b : FileGroup.t) : bool :=
  FileGroup.pk a <? FileGroup.pk b.

(** [parse_files(source)], where [entries] is what the directory holds. *)
Definition parse_files (source : Path.t) (entries : list string)
    : result (list FileGroup.t) :=
  let files := Path.glob_mp4 source entries in
  groups ← collect (py_sorted Path.ltb files) [];
  file_groups ← build_groups groups;
  Ok (py_sorted pk_ltb file_groups).

Definition sample_path : Path.t :=
  Path.mk false ["videos"; "20240703_131044_0417_N_A.MP4"].

(** ** The file system

    What the jobs and the concatenator see of the disk: which paths exist,
    keyed by [str(path)] relative to the working directory. *)

Inductive node :=
  | Dir
  | File (content : string).

Abbreviation fs := (gmap string node).

(** Writing a regular file: creates or replaces it; a directory of that
    name stays as it is. *)
Definition write_file (key content : string) (w : fs) : fs :=
  match w !! key with
  | Some Dir => w
  | _ => <[key := File content]> w
  end.

(** What one run of the external media engine did: the content it left at
    its output path, if any, and the error it ended with, if any. *)
Record engine_run := mk_run {
  written : option string;
  failure : option exn
}.

Definition apply_run (out : string) (run : engine_run) (w : fs) : fs :=
  match written run with
  | Some content => write_file out content w
  | None => w
  end.

(** ** The stitch job *)

Section Stitch.

(** [ffmpeg.output(hstacked, audio, out).run(overwrite_output=True)] on
    the three inputs, as a black box; a failing run ends with
    [FfmpegError]. *)
Variable ffmpeg_run : fs -> string -> string -> string -> string -> engine_run.

(** [Path(f"./out/output_{group.pk}.mp4")], for an id the f-string
    formats: one of at most [int_max_str_digits] digits ([formattable]
    below), as every id read by [int] is. *)
Definition output_file (pk : Z) : Path.t :=
  Path.mk false ["out"; "output_" +:+ pretty pk +:+ ".mp4"].

(** [if not Path('./out').exists(): Path('./out').mkdir()] *)
Definition ensure_out (w : fs) : fs :=
  match w !! "out" with
  | Some _ => w
  | None => <["out" := Dir]> w
  end.

Definition stitch_group (group : FileGroup.t) (w : fs) : fs * result Path.t :=
  match FileGroup.get_by_position group Position.FRONT with
  | Raise e => (w, Raise e)
  | Ok front =>
  match FileGroup.get_by_position group Position.INTERNAL with
  | Raise e => (w, Raise e)
  | Ok internal =>
  match FileGroup.get_by_position group Position.REAR with
  | Raise e => (w, Raise e)
  | Ok rear =>
      let w := ensure_out w in
      let out := output_file (FileGroup.pk group) in
      let run := ffmpeg_run w
                   (Path.str (VideoFileInfo.file front))
                   (Path.str (VideoFileInfo.file internal))
                   (Path.str (VideoFileInfo.file rear))
                   (Path.str out) in
      let w := apply_run (Path.str out) run w in
      match failure run with
      | Some e => (w, Raise e)
      | None => (w, Ok out)
      end
  end end end.

(** ** The worker pool

    [ThreadPoolExecutor]: submitted jobs wait in a queue, oldest first;
    at most [max_workers] run at a time; which running job finishes next
    is up to the scheduler.  A job is one step on the file system, taken
    when it finishes.  [completion_order] records the order in which the
    jobs finished.

    Taking a job as one step is exact when the jobs cannot interleave
    between [exists()] and [mkdir()] on [out]: with one worker, or with
    [out] in place before the first job ([out_settled] below).  The
    properties that promise success assume it. *)

Record pool := mk_pool {
  queue : list (nat * FileGroup.t);
  running : list (nat * FileGroup.t);
  futures : gmap nat (result Path.t);
  completion_order : list nat;
  world : fs
}.

(** Idle workers take the oldest queued jobs. *)
Fixpoint dispatch (max_workers : nat) (running queue : list (nat * FileGroup.t))
    : list (nat * FileGroup.t) * list (nat * FileGroup.t) :=
  match queue with
  | [] => (running, [])
  | job :: queue' =>
      if (length running <? max_workers)%nat
      then dispatch max_workers (running ++ [job])%list queue'
      else (running, queue)
  end.

(** The scheduler's choice among the running jobs. *)
Definition choose (k : nat) (running : list (nat * FileGroup.t)) : nat :=
  (k mod length running)%nat.

(** [shutdown(wait=True)]: run until nothing is queued or running.  Each
    round finishes one job, so [fuel] rounds suffice for [fuel] jobs.
    When [schedule] runs out the oldest running job finishes first. *)
Fixpoint run_pool (max_workers : nat) (schedule : list nat) (fuel : nat)
    (p : pool) : pool :=
  match fuel with
  | O => p
  | S fuel' =>
      let '(running, queue) := dispatch max_workers (running p) (queue p) in
      let k := choose (hd 0%nat schedule) running in
      match running !! k with
      | None => mk_pool queue running (futures p) (completion_order p) (world p)
      | Some (i, group) =>
          let '(w, r) := stitch_group group (world p) in
          run_pool max_workers (tl schedule) fuel'
            (mk_pool queue (delete k running) (<[i := r]> (futures p))
               (completion_order p ++ [i])%list w)
      end
  end.

(** ** The orchestrator *)

(** [print(f'Error stitching group {group}: {e}')] *)
Inductive log_line :=
  | ErrorStitchingGroup (group : FileGroup.t) (e : exn).

(** How a drained generator ended: it ran to its end, it raised, or it
    is still waiting for a future that never completes. *)
Inductive ending :=
  | Exhausted
  | Raised (e : exn)
  | Blocked.

Record trace := mk_trace {
  yielded : list (FileGroup.t * Path.t);
  printed : list log_line;
  ended : ending
}.

(** An exception leaving a generator's body: a [StopIteration] is
    replaced by a [RuntimeError] chained to it (PEP 479). *)
Definition generator_raise (e : exn) : exn :=
  match e with
  | StopIteration => RuntimeError "generator raised StopIteration" e
  | _ => e
  end.

(** The second loop of [stitch_all]: take the futures in the order they
    were submitted. *)
Fixpoint drain (futures : gmap nat (result Path.t))
    (submitted : list (FileGroup.t * nat)) : trace :=
  match submitted with
  | [] => mk_trace [] [] Exhausted
  | (group, future) :: submitted' =>
      match futures !! future with
      | None => mk_trace [] [] Blocked
      | Some (Ok out) =>
          let t := drain futures submitted' in
          mk_trace ((group, out) :: yielded t) (printed t) (ended t)
      | Some (Raise e) =>
          mk_trace [] [ErrorStitchingGroup group e] (Raised (generator_raise e))
      end
  end.

(** The futures in submission order: the i-th group holds future i. *)
Definition submit_all (groups : list FileGroup.t) : list (FileGroup.t * nat) :=
  zip groups (seq 0 (length groups)).

Definition swap_job (job : FileGroup.t * nat) : nat * FileGroup.t :=
  (job.2, job.1).

(** The pool once every submitted job has finished. *)
Definition pool_after (groups : list FileGroup.t) (max_workers : nat)
    (schedule : list nat) (w : fs) : pool :=
  run_pool max_workers schedule (length groups)
    (mk_pool (map swap_job (submit_all groups)) [] ∅ [] w).

(** [stitch_all(groups, max_workers)], drained.  The executor refuses a
    pool size below one before anything is submitted. *)
Definition stitch_all (groups : list FileGroup.t) (max_workers : Z)
    (schedule : list nat) (w : fs) : fs * trace :=
  if max_workers <=? 0
  then (w, mk_trace [] [] (Raised (ValueError BadMaxWorkers)))
  else
    let p := pool_after groups (Z.to_nat max_workers) schedule w in
    (world p, drain (futures p) (submit_all groups)).

End Stitch.

(** ** The concatenator *)

Section Combine.

(** The working directory, for [path.absolute()]. *)
Variable cwd : Path.t.

(** [subprocess.run(['ffmpeg', ..., '-i', manifest, '-c', 'copy', out],
    check=True)] as a black box. *)
Variable concat_run : fs -> string -> string -> engine_run.

Definition absolute (p : Path.t) : Path.t :=
  if Path.anchored p then p
  else Path.mk true (Path.parts cwd ++ Path.parts p)%list.

Definition newline : string := String (ascii_of_nat 10) EmptyString.

(** [f"file '{path.absolute()}'\n"] *)
Definition manifest_line (p : Path.t) : string :=
  "file '" +:+ Path.str (absolute p) +:+ "'" +:+ newline.

(** [create_file_list]: opening for writing fails on a directory.  The
    disk has no permissions and no directory tree of its own: the
    properties on the manifest's content assume that the manifest is a
    name in a directory that exists, and paths in ASCII, which every
    encoding of the locale writes. *)
Definition create_file_list (file_paths : list Path.t) (list_filename : Path.t)
    (w : fs) : fs * result unit :=
  match w !! Path.str list_filename with
  | Some Dir => (w, Raise (OSError "Is a directory"))
  | _ =>
      (<[Path.str list_filename := File (String.concat "" (map manifest_line file_paths))]> w,
       Ok tt)
  end.

(** [path.unlink()] *)
Definition unlink (p : Path.t) (w : fs) : fs * result unit :=
  match w !! Path.str p with
  | Some (File _) => (delete (Path.str p) w, Ok tt)
  | Some Dir => (w, Raise (OSError "Is a directory"))
  | None => (w, Raise (FileNotFoundError (Path.str p)))
  end.

Definition temp_file_list : Path.t := Path.mk false ["file_list.txt"].

Record combined := mk_combined {
  disk : fs;
  outcome : result unit;
  reported : list exn   (* print(f'Error combining clips: {e}') *)
}.

Definition combine_clips (output_files : list Path.t)
    (final_output_file : string) (w : fs) : combined :=
  match create_file_list output_files temp_file_list w with
  | (w, Raise e) => mk_combined w (Raise e) []
  | (w, Ok _) =>
      (* try *)
      let run := concat_run w (Path.str temp_file_list) final_output_file in
      let w := apply_run final_output_file run w in
      let '(body, log) :=
        match failure run with
        | Some e => (Raise e, [e])      (* except: print, raise e *)
        | None => (Ok tt, [])
        end in
      (* finally *)
      match unlink temp_file_list w with
      | (w, Raise e) => mk_combined w (Raise e) log
      | (w, Ok _) => mk_combined w body log
      end
  end.

End Combine.

(** ** Notions used to state the properties of the grouper *)

(** Parsing a list of files, first error first. *)
Fixpoint parse_all (files : list Path.t) : result (list VideoFileInfo.t) :=
  match files with
  | [] => Ok []
  | file :: files' =>
      vf ← VideoFileInfo.from_path file;
      vfs ← parse_all files';
      Ok (vf :: vfs)
  end.

(** The files [parse_files] discovers, in the order it parses them. *)
Definition discovered (source : Path.t) (entries : list string) : list Path.t :=
  py_sorted Path.ltb (Path.glob_mp4 source entries).

(** The records of one group id, in the given order. *)
Definition with_id (gid : Z) (vfs : list VideoFileInfo.t) : list VideoFileInfo.t :=
  List.filter (fun vf => VideoFileInfo.id vf =? gid) vfs.

(** Filling the buckets with records already parsed. *)
Definition fill (vfs : list VideoFileInfo.t) (groups : buckets) : buckets :=
  fold_left (fun groups vf => bucket_append (VideoFileInfo.id vf) vf groups)
            vfs groups.

(** The bucket of a key, empty when the key is absent. *)
Fixpoint bucket_of (key : Z) (groups : buckets) : list VideoFileInfo.t :=
  match groups with
  | [] => []
  | (k, vfs) :: groups' => if k =? key then vfs else bucket_of key groups'
  end.

(** The order a sort leaves behind: [y] may follow [x] when [y] is not
    smaller than [x]. *)
Definition not_after {A} (ltb : A -> A -> bool) (x y : A) : Prop :=
  ltb y x = false.

(** The first failing file of a list, with its error. *)
Fixpoint first_failure (files : list Path.t) : option (Path.t * exn) :=
  match files with
  | [] => None
  | file :: files' =>
      match VideoFileInfo.from_path file with
      | Raise e => Some (file, e)
      | Ok _ => first_failure files'
      end
  end.

(** The invariant of a [FileGroup]: it is not empty and every file
    carries the group's id. *)
Definition group_invariant (fg : FileGroup.t) : Prop :=
  FileGroup.files fg <> []
  /\ Forall (fun vf => VideoFileInfo.id vf = FileGroup.pk fg) (FileGroup.files fg).

(** A well-formed group: exactly three records, one per camera position. *)
Definition well_formed_group (vfs : list VideoFileInfo.t) (gid : Z) : Prop :=
  length (with_id gid vfs) = 3%nat
  /\ forall position, exists vf,
       In vf (with_id gid vfs) /\ VideoFileInfo.position vf = position.

(** What [build_groups] makes of a bucket. *)
Definition group_of_bucket (bucket : Z * list VideoFileInfo.t) (fg : FileGroup.t) : Prop :=
  FileGroup.pk fg = bucket.1
  /\ FileGroup.files fg = bucket.2
  /\ Some (FileGroup.ts fg) = VideoFileInfo.ts <$> head bucket.2.

(** A small directory: two complete groups, a text file, and mixed letter
    case in the extensions. *)
Definition sample_source : Path.t := Path.mk false ["videos"].

Definition sample_entries : list string :=
  ["20240703_131144_0418_N_C.mp4"; "20240703_131044_0417_N_B.MP4";
   "notes.txt";
   "20240703_131144_0418_N_A.mp4"; "20240703_131044_0417_N_C.mp4";
   "20240703_131044_0417_N_A.MP4"; "20240703_131145_0418_N_B.Mp4"].

(** The sample directory with one malformed name added. *)
Definition broken_entries : list string :=
  ("20240703_131144_0418_X_A.mp4" :: sample_entries)%list.

(** ** Notions used to state the properties of the stitch job *)

(** A group without a file at a position. *)
Definition lacks (position : Position.t) (group : FileGroup.t) : Prop :=
  Forall (fun vf => VideoFileInfo.position vf <> position) (FileGroup.files group).

(** The position-missing error of the specification, which names the
    missing position and the group: some way to read the exception recovers
    both, for every group without a Rear file. *)
Definition rear_error_names_group
    (ffmpeg_run : fs -> string -> string -> string -> string -> engine_run)
    (describe : exn -> option (Position.t * Z)) : Prop :=
  forall (group : FileGroup.t) (w : fs),
    lacks Position.REAR group ->
    exists e, (stitch_group ffmpeg_run group w).2 = Raise e
              /\ describe e = Some (Position.REAR, FileGroup.pk group).

(** An engine that always succeeds, and one that always fails. *)
Definition engine_ok : fs -> string -> string -> string -> string -> engine_run :=
  fun _ _ _ _ _ => mk_run (Some "stitched") None.

Definition engine_failing : fs -> string -> string -> string -> string -> engine_run :=
  fun _ _ _ _ _ => mk_run None (Some (FfmpegError "Invalid data found")).

Definition sample_file (stem : string) (gid : Z) (position : Position.t)
    : VideoFileInfo.t :=
  VideoFileInfo.mk (Py.mk_datetime 2024 7 3 13 10 44) gid VideoType.NORMAL position
    (Path.joinpath sample_source (stem +:+ ".mp4")).

(** Group [gid], complete. *)
Definition full_group (gid : Z) : FileGroup.t :=
  FileGroup.mk (Py.mk_datetime 2024 7 3 13 10 44) gid
    [sample_file "a" gid Position.FRONT; sample_file "b" gid Position.INTERNAL;
     sample_file "c" gid Position.REAR].

(** Group [gid] without its Rear file. *)
Definition group_without_rear (gid : Z) : FileGroup.t :=
  FileGroup.mk (Py.mk_datetime 2024 7 3 13 10 44) gid
    [sample_file "a" gid Position.FRONT; sample_file "b" gid Position.INTERNAL].

(** ** Notions used to state the properties of the concatenator *)

Definition concat_ok : fs -> string -> string -> engine_run :=
  fun _ _ _ => mk_run (Some "joined") None.

Definition concat_failing : fs -> string -> string -> engine_run :=
  fun _ _ _ => mk_run None (Some (CalledProcessError 1)).

Definition sample_cwd : Path.t := Path.mk true ["home"; "user"].

Definition sample_outputs : list Path.t :=
  [Path.mk false ["out"; "a.mp4"]; Path.mk false ["out"; "b.mp4"]].

(** ** The naming schema, as the specification words it

    A stem follows the schema when it splits at underscores into exactly
    five tokens: a date [YYYYMMDD] of the calendar, a time [HHMMSS] of the
    day, a group id written in decimal digits (no longer than the
    interpreter converts), one of [N], [E], [P] and one of [A], [B],
    [C]. *)

Definition all_digits (s : string) : bool :=
  forallb Str.is_digit (list_ascii_of_string s).

(** A two-character string. *)
Definition two (a b : ascii) : string := String a (String b EmptyString).

(** The number a string of digits denotes. *)
Definition decimal (s : string) : Z :=
  Py.digits_value (map Str.digit_value (list_ascii_of_string s)).

Definition calendar_days (y m : Z) : Z :=
  match m with
  | 1 | 3 | 5 | 7 | 8 | 10 | 12 => 31
  | 4 | 6 | 9 | 11 => 30
  | 2 => if (y mod 4 =? 0) && (negb (y mod 100 =? 0) || (y mod 400 =? 0))
         then 29 else 28
  | _ => 0
  end.

Definition date_year (s : string) : Z := decimal (substring 0 4 s).
Definition date_month (s : string) : Z := decimal (substring 4 2 s).
Definition date_day (s : string) : Z := decimal (substring 6 2 s).
Definition time_hour (s : string) : Z := decimal (substring 0 2 s).
Definition time_minute (s : string) : Z := decimal (substring 2 2 s).
Definition time_second (s : string) : Z := decimal (substring 4 2 s).

Definition schema_date (s : string) : bool :=
  (String.length s =? 8)%nat && all_digits s
  && (1 <=? date_year s)
  && (1 <=? date_month s) && (date_month s <=? 12)
  && (1 <=? date_day s) && (date_day s <=? calendar_days (date_year s) (date_month s)).

Definition schema_time (s : string) : bool :=
  (String.length s =? 6)%nat && all_digits s
  && (time_hour s <=? 23) && (time_minute s <=? 59) && (time_second s <=? 59).

Definition schema_group_id (s : string) : bool :=
  (1 <=? String.length s)%nat && (String.length s <=? Py.int_max_str_digits)%nat
  && all_digits s.

Definition schema_type (s : string) : option VideoType.t :=
  if String.eqb s "N" then Some VideoType.NORMAL
  else if String.eqb s "E" then Some VideoType.EVENT
  else if String.eqb s "P" then Some VideoType.PARKING
  else None.

Definition schema_position (s : string) : option Position.t :=
  if String.eqb s "A" then Some Position.FRONT
  else if String.eqb s "B" then Some Position.INTERNAL
  else if String.eqb s "C" then Some Position.REAR
  else None.

(** The record the schema assigns to a stem, for the file [path]. *)
Definition schema_record (stem : string) (path : Path.t) : option VideoFileInfo.t :=
  match Str.split "_" stem with
  | [date; time; gid; type; position] =>
      if schema_date date && schema_time time && schema_group_id gid
      then
        video_type ← schema_type type;
        position ← schema_position position;
        Some (VideoFileInfo.mk
                (Py.mk_datetime (date_year date) (date_month date) (date_day date)
                   (time_hour time) (time_minute time) (time_second time))
                (decimal gid) video_type position path)
      else None
  | _ => None
  end.

Definition matches_schema (stem : string) : bool :=
  match schema_record stem (Path.mk false []) with
  | Some _ => true
  | None => false
  end.

(** ** The stems the parser accepts

    Five tokens, of which [int] accepts the third, [strptime] the first
    two, and the two enumerations the last two. *)
Definition accepted (stem : string) : bool :=
  match Str.split "_" stem with
  | [date; time; gid; type; position] =>
      is_ok (Py.int gid)
      && is_ok (Py.strptime_Ymd date) && is_ok (Py.strptime_HMS time)
      && is_ok (VideoType.of_value type) && is_ok (Position.of_value position)
  | _ => false
  end.

(** A character that can occur in a literal [int] accepts. *)
Definition numeral_char (c : ascii) : bool :=
  Str.is_digit c || Str.is_space c || Ascii.eqb c "+" || Ascii.eqb c "-".


(** The records of the sample directory, in discovery order. *)
Definition sample_records : list VideoFileInfo.t :=
  Eval vm_compute in
    match parse_all (discovered sample_source sample_entries) with
    | Ok vfs => vfs
    | Raise _ => []
    end.

(** The same, as a check. *)
Definition well_formed_groupb (vfs : list VideoFileInfo.t) (gid : Z) : bool :=
  (length (with_id gid vfs) =? 3)%nat
  && forallb (fun position =>
       existsb (fun vf => Position.eqb (VideoFileInfo.position vf) position)
               (with_id gid vfs))
     [Position.FRONT; Position.INTERNAL; Position.REAR].

(** ** Notions used to state the properties of the orchestrator *)

(** The jobs of a pool that have not finished. *)
Definition pending (p : pool) : list (nat * FileGroup.t) :=
  (running p ++ queue p)%list.

(** The pair [stitch_all] yields for a group whose job succeeded. *)
Definition stitched (group : FileGroup.t) : FileGroup.t * Path.t :=
  (group, output_file (FileGroup.pk group)).

(** What a drained [stitch_all] looks like: the first [n] groups were
    yielded, each with its output file, in the order of [groups]; then the
    generator either ran out of groups or reported and raised the error of
    group [n]'s job. *)
Definition drained_in_order (results : gmap nat (result Path.t)) (start : nat)
    (groups : list FileGroup.t) (t : trace) : Prop :=
  exists n : nat,
    (n <= length groups)%nat
    /\ yielded t = map stitched (take n groups)
    /\ (forall (i : nat) (group : FileGroup.t), (i < n)%nat -> groups !! i = Some group ->
          results !! (start + i)%nat = Some (Ok (output_file (FileGroup.pk group))))
    /\ ((n = length groups /\ ended t = Exhausted /\ printed t = [])
        \/ (exists (group : FileGroup.t) (e : exn),
              groups !! n = Some group
              /\ results !! (start + n)%nat = Some (Raise e)
              /\ ended t = Raised (generator_raise e)
              /\ printed t = [ErrorStitchingGroup group e])).

(** The three groups of the documented scenario, and the pool size. *)
Definition three_groups : list FileGroup.t :=
  [full_group 1; full_group 2; full_group 3].

(** A schedule under which, with two workers, job 2 finishes before
    job 1. *)
Definition second_first : list nat := [1%nat; 0%nat; 0%nat].

(** The same batch with the Rear file of group 2 missing. *)
Definition three_groups_one_broken : list FileGroup.t :=
  [full_group 1; group_without_rear 2; full_group 3].

(** ** Notions used to state further properties of the jobs *)

(** The key of a group's output file on the disk. *)
Definition output_key (group : FileGroup.t) : string :=
  Path.str (output_file (FileGroup.pk group)).

(** A group with a file at every camera position. *)
Definition complete (group : FileGroup.t) : Prop :=
  forall position,
    Exists (fun vf => VideoFileInfo.position vf = position) (FileGroup.files group).

(** An engine none of whose runs ends with an error. *)
Definition never_fails
    (ffmpeg_run : fs -> string -> string -> string -> string -> engine_run) : Prop :=
  forall w front internal rear out,
    failure (ffmpeg_run w front internal rear out) = None.

(** A disk with some files of its own. *)
Definition sample_disk : fs :=
  <["notes.txt" := File "keep"]> (<["videos" := Dir]> ∅).

(** ** Notions used to state further properties of the concatenator *)

(** A string in which a character does not occur. *)
Definition free_of (c : ascii) (s : string) : bool :=
  forallb (fun c' => negb (Ascii.eqb c' c)) (list_ascii_of_string s).


(** ** The commands

    The two commands of the command line, given their options already
    converted ([src] and [dst] as paths where the code converts them, the
    parallelism as an integer) and the entries of the source directory. *)

(** [path.exists()] and [path.is_dir()]; the working directory and the
    root, the paths without components, always exist. *)
Definition path_exists (p : Path.t) (w : fs) : bool :=
  match Path.parts p with
  | [] => true
  | _ => match w !! Path.str p with Some _ => true | None => false end
  end.

Definition path_is_dir (p : Path.t) (w : fs) : bool :=
  match Path.parts p with
  | [] => true
  | _ => match w !! Path.str p with Some Dir => true | _ => false end
  end.

(** [path.parent] *)
Definition parent (p : Path.t) : Path.t :=
  Path.mk (Path.anchored p) (removelast (Path.parts p)).

(** [path.mkdir()]: the path must be free and its parent a directory. *)
Definition mkdir (p : Path.t) (w : fs) : fs * result unit :=
  match w !! Path.str p with
  | Some _ => (w, Raise (OSError "File exists"))
  | None =>
      if path_is_dir (parent p) w
      then (<[Path.str p := Dir]> w, Ok tt)
      else if path_exists (parent p) w
      then (w, Raise (OSError "Not a directory"))
      else (w, Raise (FileNotFoundError (Path.str p)))
  end.

(** [if not dst.exists(): dst.mkdir()] *)
Definition ensure_dir (dst : Path.t) (w : fs) : fs * result unit :=
  if path_exists dst w then (w, Ok tt) else mkdir dst w.

(** The match of [glob('*.mp4')], with the letter case of the pattern. *)
Definition glob_match_mp4_exact (entry : string) : bool :=
  (4 <=? String.length entry)%nat && String.eqb (Str.suffix_of 4 entry) ".mp4".

(** What a command printed. *)
Inductive cli_line :=
  | StitchedGroup (group : FileGroup.t) (stitched_file : Path.t)
      (* print(f'Stitched group {group}: {stitched_file}') *)
  | ErrorStitching (line : log_line)
  | ErrorCombining (e : exn).
      (* print(f'Error combining clips: {e}') *)

(** How a command ended: it returned, an [assert] failed, an exception left
    it, or it is still waiting. *)
Inductive cli_exit :=
  | Returned
  | AssertionError (message : string)
  | Uncaught (e : exn)
  | NeverReturns.

Record cli_run := mk_cli {
  cli_disk : fs;
  cli_printed : list cli_line;
  cli_exited : cli_exit
}.

Definition exit_of_ending (e : ending) : cli_exit :=
  match e with
  | Exhausted => Returned
  | Raised e => Uncaught e
  | Blocked => NeverReturns
  end.

Definition stitched_line (pair : FileGroup.t * Path.t) : cli_line :=
  StitchedGroup pair.1 pair.2.

Section Commands.

Variable ffmpeg_run : fs -> string -> string -> string -> string -> engine_run.
Variable concat_run : fs -> string -> string -> engine_run.
Variable cwd : Path.t.

(** The two assertions on the source path. *)
Definition check_source (src : Path.t) (w : fs) : option string :=
  if negb (path_exists src w)
  then Some ("Source path " +:+ Path.str src +:+ " does not exist.")
  else if negb (path_is_dir src w)
  then Some ("Source path " +:+ Path.str src +:+ " is not a directory.")
  else None.

(** The [stitch] command. *)
Definition stitch (parallelism : Z) (src dst : Path.t) (entries : list string)
    (schedule : list nat) (w : fs) : cli_run :=
  match check_source src w with
  | Some message => mk_cli w [] (AssertionError message)
  | None =>
      match ensure_dir dst w with
      | (w, Raise e) => mk_cli w [] (Uncaught e)
      | (w, Ok _) =>
          match parse_files src entries with
          | Raise e => mk_cli w [] (Uncaught e)
          | Ok file_groups =>
              let '(w, t) := stitch_all ffmpeg_run file_groups parallelism schedule w in
              mk_cli w
                (map stitched_line (yielded t) ++ map ErrorStitching (printed t))%list
                (exit_of_ending (ended t))
          end
      end
  end.

(** The [combine] command; [dst] goes to the engine as the output file. *)
Definition combine (src : Path.t) (dst : string) (entries : list string)
    (w : fs) : cli_run :=
  match check_source src w with
  | Some message => mk_cli w [] (AssertionError message)
  | None =>
      let files := map (Path.joinpath src) (List.filter glob_match_mp4_exact entries) in
      let r := combine_clips cwd concat_run (py_sorted Path.ltb files) dst w in
      mk_cli (disk r) (map ErrorCombining (reported r))
        (match outcome r with Ok _ => Returned | Raise e => Uncaught e end)
  end.

End Commands.

(** ** Sample inputs for the commands *)

(** The groups of the sample directory. *)
Definition sample_groups : list FileGroup.t :=
  Eval vm_compute in
    match parse_files sample_source sample_entries with
    | Ok groups => groups
    | Raise _ => []
    end.

(** [complete], as a check. *)
Definition completeb (group : FileGroup.t) : bool :=
  forallb (fun position =>
             existsb (fun vf => Position.eqb (VideoFileInfo.position vf) position)
                     (FileGroup.files group))
          [Position.FRONT; Position.INTERNAL; Position.REAR].

Definition sample_dst : Path.t := Path.mk false ["stitched"].

Definition sample_note : Path.t := Path.mk false ["notes.txt"].

(** An extension [.mp4] in any letter case. *)
Definition mp4_extension (ext : string) : bool :=
  (String.length ext =? 4)%nat && String.eqb (Str.lowercase ext) ".mp4".

(** ** Deviations from the schema, read off the tokens

    The models of [int] and [strptime] read ASCII; the deviations of the
    group id, the date and the time are stated for tokens written in
    ASCII, where the models and Python agree. *)








(** ** Conditions under which the models of the jobs are exact *)

(** An id that [f"{pk}"] formats: one of at most [int_max_str_digits]
    digits. *)
Definition formattable (pk : Z) : Prop :=
  Z.abs pk < 10 ^ Z.of_nat Py.int_max_str_digits.

(** Jobs that cannot meet on the creation of [out]: there is one worker,
    or [out] is already there when the jobs start. *)
Definition out_settled (max_workers : Z) (w : fs) : Prop :=
  max_workers = 1 \/ is_Some (w !! "out").

(** A disk on which [out] is in place. *)
Definition disk_with_out : fs := <["out" := Dir]> ∅.

Definition out_dir : Path.t := Path.mk false ["out"].

(** * Properties *)

(** ** The library models on a few inputs *)

Example int_0417 : Py.int "0417" = Ok 417.
Proof. reflexivity. Qed.
Example int_signed : Py.int " -5 " = Ok (-5).
Proof. reflexivity. Qed.
Example int_bad : Py.int "+ 5" = Raise (ValueError (InvalidLiteral "+ 5")).
Proof. reflexivity. Qed.
Example strptime_short_date :
  Py.strptime_Ymd "202411" = Ok (Py.mk_datetime 2024 1 1 0 0 0).
Proof. reflexivity. Qed.
Example strptime_feb30 :
  Py.strptime_Ymd "20240230" = Raise (ValueError (FieldOutOfRange "day" 30)).
Proof. reflexivity. Qed.
Example strptime_hms_short :
  Py.strptime_HMS "131" = Ok (Py.mk_datetime 1900 1 1 1 3 1).
Proof. reflexivity. Qed.
Example strptime_hms_24 :
  Py.strptime_HMS "240000" = Raise (ValueError (UnconvertedData "0")).
Proof. reflexivity. Qed.
Example strptime_hms_60 :
  Py.strptime_HMS "235960" = Raise (ValueError (FieldOutOfRange "second" 60)).
Proof. reflexivity. Qed.
Example from_path_sample :
  VideoFileInfo.from_path sample_path
  = Ok (VideoFileInfo.mk (Py.mk_datetime 2024 7 3 13 10 44) 417
          VideoType.NORMAL Position.FRONT sample_path).
Proof. reflexivity. Qed.

(** ** Paths and tokens *)

Lemma last_snoc {A} (l : list A) (x d : A) : List.last (l ++ [x])%list d = x.
Proof.
  induction l as [|y l IH]; [reflexivity|].
  simpl. destruct (l ++ [x])%list eqn:E; [|exact IH].
  destruct l; discriminate.
Qed.

Lemma name_joinpath (p : Path.t) (child : string) :
  Path.name (Path.joinpath p child) = child.
Proof. unfold Path.name, Path.joinpath. simpl. apply last_snoc. Qed.

Lemma stem_joinpath (p : Path.t) (child : string) :
  Path.stem (Path.joinpath p child) = Path.stem (Path.mk false [child]).
Proof. unfold Path.stem. rewrite name_joinpath. reflexivity. Qed.

(** ** The parser on the documented sample *)

(** C7: in whatever directory it lies, the file [20240703_131044_0417_N_A.MP4]
    parses to the timestamp 2024-07-03 13:10:44, group id 417, type Normal and
    position Front. *)
Theorem from_path_documented_sample (dir : Path.t) :
  let path := Path.joinpath dir "20240703_131044_0417_N_A.MP4" in
  Path.stem path = "20240703_131044_0417_N_A"
  /\ VideoFileInfo.from_path path
     = Ok (VideoFileInfo.mk (Py.mk_datetime 2024 7 3 13 10 44) 417
             VideoType.NORMAL Position.FRONT path).
Proof.
  intros path. subst path.
  assert (Hstem : Path.stem (Path.joinpath dir "20240703_131044_0417_N_A.MP4")
                  = "20240703_131044_0417_N_A")
    by (rewrite stem_joinpath; reflexivity).
  split; [exact Hstem|].
  unfold VideoFileInfo.from_path. rewrite Hstem. reflexivity.
Qed.

(** ** The stable sort *)

Section SortingFacts.
Context {A : Type} (ltb : A -> A -> bool).

Lemma insert_sorted_perm (x : A) (l : list A) :
  insert_sorted ltb x l ≡ₚ x :: l.
Proof.
  induction l as [|y l IH]; simpl; [reflexivity|].
  destruct (ltb y x); [|reflexivity].
  rewrite IH. apply Permutation_swap.
Qed.

Lemma py_sorted_perm (l : list A) : py_sorted ltb l ≡ₚ l.
Proof.
  induction l as [|x l IH]; simpl; [reflexivity|].
  rewrite insert_sorted_perm, IH. reflexivity.
Qed.

Hypothesis ltb_trans_neg :
  forall x y z, ltb y x = false -> ltb z y = false -> ltb z x = false.
Hypothesis ltb_asym : forall x y, ltb x y = true -> ltb y x = false.

Lemma insert_sorted_sorted (x : A) (l : list A) :
  StronglySorted (not_after ltb) l -> StronglySorted (not_after ltb) (insert_sorted ltb x l).
Proof.
  induction l as [|y l IH]; simpl; intros Hs.
  - constructor; [constructor|constructor].
  - inversion Hs as [|? ? Hl Hy]; subst.
    destruct (ltb y x) eqn:E.
    + constructor; [apply IH, Hl|].
      rewrite insert_sorted_perm. constructor; [|exact Hy].
      unfold not_after. apply ltb_asym, E.
    + constructor; [exact Hs|].
      constructor; [exact E|].
      eapply Forall_impl; [exact Hy|].
      intros z Hz. unfold not_after in *. eauto.
Qed.

Lemma py_sorted_sorted (l : list A) : StronglySorted (not_after ltb) (py_sorted ltb l).
Proof.
  induction l as [|x l IH]; simpl; [constructor|].
  apply insert_sorted_sorted, IH.
Qed.

End SortingFacts.

(** ** The buckets *)

Lemma collect_fill (files : list Path.t) (groups : buckets) :
  collect files groups
  = (vfs ← parse_all files; Ok (fill vfs groups)).
Proof.
  revert groups. induction files as [|file files IH]; intros groups; simpl.
  - reflexivity.
  - destruct (VideoFileInfo.from_path file) as [vf|e]; simpl; [|reflexivity].
    rewrite IH. destruct (parse_all files); reflexivity.
Qed.

Lemma parse_all_first_failure (files : list Path.t) :
  match first_failure files with
  | Some (_, e) => parse_all files = Raise e
  | None => exists vfs, parse_all files = Ok vfs
  end.
Proof.
  induction files as [|file files IH]; simpl.
  - eexists; reflexivity.
  - destruct (VideoFileInfo.from_path file) as [vf|e]; simpl; [|reflexivity].
    destruct (first_failure files) as [[f e]|].
    + rewrite IH. reflexivity.
    + destruct IH as [vfs ->]. eexists; reflexivity.
Qed.

Lemma bucket_of_append (key k : Z) (vf : VideoFileInfo.t) (groups : buckets) :
  bucket_of k (bucket_append key vf groups)
  = if key =? k then (bucket_of k groups ++ [vf])%list else bucket_of k groups.
Proof.
  induction groups as [|[k' vfs] groups IH]; simpl.
  - destruct (key =? k); reflexivity.
  - destruct (k' =? key) eqn:E1; simpl.
    + apply Z.eqb_eq in E1; subst k'.
      destruct (key =? k); reflexivity.
    + destruct (k' =? k) eqn:E2; [|exact IH].
      apply Z.eqb_eq in E2; subst k'. rewrite Z.eqb_sym, E1. reflexivity.
Qed.

Lemma bucket_of_fill (k : Z) (vfs : list VideoFileInfo.t) (groups : buckets) :
  bucket_of k (fill vfs groups) = (bucket_of k groups ++ with_id k vfs)%list.
Proof.
  revert groups. induction vfs as [|vf vfs IH]; intros groups; simpl.
  - rewrite app_nil_r. reflexivity.
  - unfold fill in *. simpl. rewrite IH, bucket_of_append.
    unfold with_id. simpl.
    destruct (VideoFileInfo.id vf =? k); [|reflexivity].
    rewrite <- app_assoc. reflexivity.
Qed.

Lemma keys_append (key : Z) (vf : VideoFileInfo.t) (groups : buckets) :
  map fst (bucket_append key vf groups)
  = if decide (key ∈ map fst groups) then map fst groups
    else (map fst groups ++ [key])%list.
Proof.
  induction groups as [|[k vfs] groups IH].
  - destruct (decide (key ∈ map fst [])) as [Hin|_]; [inversion Hin|reflexivity].
  - cbn [bucket_append]. destruct (k =? key) eqn:E.
    + apply Z.eqb_eq in E; subst k.
      destruct (decide (key ∈ map fst ((key, vfs) :: groups))) as [_|Hn];
        [reflexivity|].
      exfalso. apply Hn. apply list_elem_of_here.
    + apply Z.eqb_neq in E. cbn [map fst]. rewrite IH.
      destruct (decide (key ∈ map fst groups)) as [Hin|Hin];
        destruct (decide (key ∈ k :: map fst groups)) as [Hin'|Hin'];
        try reflexivity.
      * exfalso. apply Hin'. apply list_elem_of_further, Hin.
      * exfalso. apply elem_of_cons in Hin' as [->|?]; [congruence|contradiction].
Qed.

Lemma keys_append_NoDup (key : Z) (vf : VideoFileInfo.t) (groups : buckets) :
  NoDup (map fst groups) -> NoDup (map fst (bucket_append key vf groups)).
Proof.
  intros Hnd. rewrite keys_append. case_decide; [exact Hnd|].
  apply NoDup_app. split; [exact Hnd|]. split.
  - intros x Hx Hx'. apply list_elem_of_singleton in Hx'. subst. contradiction.
  - apply NoDup_singleton.
Qed.

Lemma keys_append_elem (key k : Z) (vf : VideoFileInfo.t) (groups : buckets) :
  k ∈ map fst (bucket_append key vf groups) <-> k = key \/ k ∈ map fst groups.
Proof.
  rewrite keys_append. case_decide as Hin.
  - split; [auto|]. intros [->|?]; assumption.
  - rewrite elem_of_app, list_elem_of_singleton. tauto.
Qed.

Lemma keys_fill_NoDup (vfs : list VideoFileInfo.t) (groups : buckets) :
  NoDup (map fst groups) -> NoDup (map fst (fill vfs groups)).
Proof.
  revert groups. induction vfs as [|vf vfs IH]; intros groups Hnd; [exact Hnd|].
  unfold fill in *. simpl. apply IH, keys_append_NoDup, Hnd.
Qed.

Lemma keys_fill_elem (k : Z) (vfs : list VideoFileInfo.t) (groups : buckets) :
  k ∈ map fst (fill vfs groups)
  <-> k ∈ map fst groups \/ k ∈ map VideoFileInfo.id vfs.
Proof.
  revert groups. induction vfs as [|vf vfs IH]; intros groups.
  - simpl. split; [auto|]. intros [?|H]; [assumption|]. inversion H.
  - unfold fill in *. simpl. rewrite IH, keys_append_elem, elem_of_cons. tauto.
Qed.

(** A key of the dictionary names its bucket. *)
Lemma bucket_of_lookup (k : Z) (vfs : list VideoFileInfo.t) (groups : buckets) :
  NoDup (map fst groups) -> (k, vfs) ∈ groups -> bucket_of k groups = vfs.
Proof.
  induction groups as [|[k' vfs'] groups IH]; simpl; intros Hnd Hin.
  - inversion Hin.
  - apply NoDup_cons in Hnd as [Hk' Hnd].
    apply elem_of_cons in Hin as [Heq|Hin].
    + inversion Heq; subst. rewrite Z.eqb_refl. reflexivity.
    + destruct (k' =? k) eqn:E; [|apply IH; assumption].
      apply Z.eqb_eq in E; subst k'. exfalso. apply Hk'.
      apply list_elem_of_fmap. exists (k, vfs). split; [reflexivity|exact Hin].
Qed.

Lemma bucket_in_fill (k : Z) (bucket vfs : list VideoFileInfo.t) :
  (k, bucket) ∈ fill vfs [] ->
  bucket = with_id k vfs /\ k ∈ map VideoFileInfo.id vfs.
Proof.
  intros Hin. split.
  - erewrite <- (bucket_of_lookup k bucket (fill vfs [])); [| |exact Hin].
    + rewrite bucket_of_fill. reflexivity.
    + apply keys_fill_NoDup. constructor.
  - assert (Hk : k ∈ map fst (fill vfs [])).
    { apply list_elem_of_fmap. exists (k, bucket). split; [reflexivity|exact Hin]. }
    apply keys_fill_elem in Hk as [Hk|Hk]; [inversion Hk|exact Hk].
Qed.

Lemma with_id_nonempty (k : Z) (vfs : list VideoFileInfo.t) :
  k ∈ map VideoFileInfo.id vfs -> with_id k vfs <> [].
Proof.
  intros Hk. apply list_elem_of_fmap in Hk as (vf & -> & Hvf).
  apply list_elem_of_In in Hvf.
  assert (Hin : In vf (with_id (VideoFileInfo.id vf) vfs)).
  { unfold with_id. apply filter_In. split; [exact Hvf|apply Z.eqb_refl]. }
  intros E. rewrite E in Hin. exact Hin.
Qed.

Lemma with_id_Forall (k : Z) (vfs : list VideoFileInfo.t) :
  Forall (fun vf => VideoFileInfo.id vf = k) (with_id k vfs).
Proof.
  apply List.Forall_forall. intros vf Hin. unfold with_id in Hin.
  apply filter_In in Hin as [_ E]. apply Z.eqb_eq, E.
Qed.

(** ** The grouper *)

Lemma build_groups_ok (groups : buckets) :
  Forall (fun bucket => bucket.2 <> []) groups ->
  exists fgs, build_groups groups = Ok fgs /\ Forall2 group_of_bucket groups fgs.
Proof.
  induction groups as [|[k vfs] groups IH]; intros Hne.
  - exists []. split; [reflexivity|constructor].
  - apply Forall_cons in Hne as [Hvfs Hne].
    destruct (IH Hne) as (fgs & Hfgs & Hall).
    destruct vfs as [|first vfs]; [contradiction|].
    simpl. rewrite Hfgs. simpl. eexists. split; [reflexivity|].
    constructor; [|exact Hall].
    repeat split.
Qed.

Lemma fill_buckets_nonempty (vfs : list VideoFileInfo.t) :
  Forall (fun bucket => bucket.2 <> []) (fill vfs []).
Proof.
  apply List.Forall_forall. intros [k bucket] Hin. simpl.
  apply list_elem_of_In, bucket_in_fill in Hin as [-> Hk].
  apply with_id_nonempty, Hk.
Qed.

(** What [parse_files] returns once every discovered file has parsed. *)
Lemma parse_files_parsed (source : Path.t) (entries : list string)
    (vfs : list VideoFileInfo.t) :
  parse_all (discovered source entries) = Ok vfs ->
  exists fgs,
    parse_files source entries = Ok (py_sorted pk_ltb fgs)
    /\ Forall2 group_of_bucket (fill vfs []) fgs.
Proof.
  intros Hparse. unfold parse_files. fold (discovered source entries).
  rewrite collect_fill, Hparse. simpl.
  destruct (build_groups_ok (fill vfs []) (fill_buckets_nonempty vfs))
    as (fgs & Hfgs & Hall).
  exists fgs. rewrite Hfgs. split; [reflexivity|exact Hall].
Qed.

Lemma parse_files_inv (source : Path.t) (entries : list string)
    (groups : list FileGroup.t) :
  parse_files source entries = Ok groups ->
  exists vfs, parse_all (discovered source entries) = Ok vfs.
Proof.
  unfold parse_files. fold (discovered source entries).
  rewrite collect_fill.
  destruct (parse_all (discovered source entries)) as [vfs|e]; simpl.
  - intros _. exists vfs. reflexivity.
  - discriminate.
Qed.

(** Every returned group comes from one bucket of the parsed records. *)
Lemma parse_files_groups (source : Path.t) (entries : list string)
    (vfs : list VideoFileInfo.t) (groups : list FileGroup.t) :
  parse_all (discovered source entries) = Ok vfs ->
  parse_files source entries = Ok groups ->
  forall fg, fg ∈ groups ->
    FileGroup.files fg = with_id (FileGroup.pk fg) vfs
    /\ FileGroup.pk fg ∈ map VideoFileInfo.id vfs
    /\ Some (FileGroup.ts fg) = VideoFileInfo.ts <$> head (FileGroup.files fg).
Proof.
  intros Hparse Hfiles fg Hfg.
  destruct (parse_files_parsed _ _ _ Hparse) as (fgs & Hres & Hall).
  rewrite Hres in Hfiles. inversion Hfiles; subst groups; clear Hfiles.
  rewrite py_sorted_perm in Hfg.
  apply list_elem_of_lookup in Hfg as [i Hi].
  destruct (Forall2_lookup_r _ _ _ _ _ Hall Hi) as ([k bucket] & Hb & Hk & Hf & Hts).
  simpl in *.
  apply list_elem_of_lookup_2, bucket_in_fill in Hb as [-> Hin].
  rewrite Hf, Hk. repeat split; assumption.
Qed.

(** C10: every [FileGroup] returned by [parse_files] is non-empty and each
    of its files carries the group's id. *)
Theorem parse_files_group_invariant (source : Path.t) (entries : list string)
    (groups : list FileGroup.t) :
  parse_files source entries = Ok groups ->
  Forall group_invariant groups.
Proof.
  intros Hfiles.
  destruct (parse_files_inv _ _ _ Hfiles) as [vfs Hparse].
  apply List.Forall_forall. intros fg Hfg. apply list_elem_of_In in Hfg.
  destruct (parse_files_groups _ _ _ _ Hparse Hfiles fg Hfg) as (Hf & Hk & _).
  unfold group_invariant. rewrite Hf. split.
  - apply with_id_nonempty, Hk.
  - apply with_id_Forall.
Qed.

Lemma parse_files_group_invariant_witness :
  exists groups,
    parse_files sample_source sample_entries = Ok groups
    /\ length groups = 2%nat
    /\ Forall group_invariant groups.
Proof.
  eexists. split; [vm_compute; reflexivity|]. split; [reflexivity|].
  apply (parse_files_group_invariant sample_source sample_entries).
  vm_compute. reflexivity.
Defined.

(** ** Fail-fast grouping *)

Lemma first_failure_some (files : list Path.t) (file : Path.t) (e : exn) :
  file ∈ files -> VideoFileInfo.from_path file = Raise e ->
  exists file' e',
    first_failure files = Some (file', e')
    /\ file' ∈ files /\ VideoFileInfo.from_path file' = Raise e'.
Proof.
  induction files as [|f files IH]; intros Hin Hfail; [inversion Hin|].
  simpl. destruct (VideoFileInfo.from_path f) as [vf|e0] eqn:Ef.
  - apply elem_of_cons in Hin as [->|Hin]; [congruence|].
    destruct (IH Hin Hfail) as (file' & e' & H1 & H2 & H3).
    exists file', e'. repeat split; [exact H1| |exact H3].
    apply list_elem_of_further, H2.
  - exists f, e0. repeat split; [apply list_elem_of_here|exact Ef].
Qed.

Lemma parse_files_first_failure (source : Path.t) (entries : list string)
    (file : Path.t) (e : exn) :
  first_failure (discovered source entries) = Some (file, e) ->
  parse_files source entries = Raise e.
Proof.
  intros Hfirst. unfold parse_files. fold (discovered source entries).
  rewrite collect_fill.
  pose proof (parse_all_first_failure (discovered source entries)) as H.
  rewrite Hfirst in H. rewrite H. reflexivity.
Qed.

(** C6: when some discovered file fails to parse, [parse_files] returns no
    groups at all: it raises the parser's error for the first failing file
    in parsing order, which is the failing file's own error when only that
    file fails. *)
Theorem parse_files_fail_fast (source : Path.t) (entries : list string)
    (file : Path.t) (e : exn) :
  file ∈ Path.glob_mp4 source entries ->
  VideoFileInfo.from_path file = Raise e ->
  exists file' e',
    first_failure (discovered source entries) = Some (file', e')
    /\ file' ∈ Path.glob_mp4 source entries
    /\ VideoFileInfo.from_path file' = Raise e'
    /\ parse_files source entries = Raise e'
    /\ ((forall other e0, other ∈ Path.glob_mp4 source entries ->
           VideoFileInfo.from_path other = Raise e0 -> other = file) ->
        file' = file /\ e' = e).
Proof.
  intros Hin Hfail.
  assert (Hin' : file ∈ discovered source entries).
  { unfold discovered. rewrite py_sorted_perm. exact Hin. }
  destruct (first_failure_some _ _ _ Hin' Hfail) as (file' & e' & H1 & H2 & H3).
  unfold discovered in H2. rewrite py_sorted_perm in H2.
  exists file', e'. repeat split; try assumption.
  - eapply parse_files_first_failure, H1.
  - eapply H; eassumption.
  - assert (file' = file) as -> by (eapply H; eassumption). congruence.
Qed.

Lemma parse_files_fail_fast_witness :
  parse_files sample_source broken_entries
  = Raise (ValueError (NotAValidMember "X" "VideoType")).
Proof.
  destruct (parse_files_fail_fast sample_source broken_entries
              (Path.joinpath sample_source "20240703_131144_0418_X_A.mp4")
              (ValueError (NotAValidMember "X" "VideoType")))
    as (file' & e' & _ & _ & _ & Hraise & Hsame).
  - vm_compute. apply list_elem_of_here.
  - vm_compute. reflexivity.
  - destruct Hsame as [_ ->]; [|exact Hraise].
    intros other e0 Hother Hfail.
    vm_compute in Hother.
    repeat (apply elem_of_cons in Hother as [->|Hother];
            [first [reflexivity | vm_compute in Hfail; discriminate]|]).
    inversion Hother.
Defined.

(** ** The stitch job *)

Lemma first_at_raises (position : Position.t) (files : list VideoFileInfo.t) (e : exn) :
  FileGroup.first_at position files = Raise e -> e = StopIteration.
Proof.
  induction files as [|file files IH]; simpl.
  - congruence.
  - destruct (Position.eqb _ _); [discriminate|exact IH].
Qed.

Lemma position_eqb_eq (p q : Position.t) : Position.eqb p q = true <-> p = q.
Proof. destruct p, q; simpl; split; congruence. Qed.

Lemma first_at_lacks (position : Position.t) (files : list VideoFileInfo.t) :
  Forall (fun vf => VideoFileInfo.position vf <> position) files ->
  FileGroup.first_at position files = Raise StopIteration.
Proof.
  induction 1 as [|file files Hne _ IH]; simpl; [reflexivity|].
  destruct (Position.eqb _ _) eqn:E; [|exact IH].
  apply position_eqb_eq in E. contradiction.
Qed.

(** C5, as the code has it: a group with no file at the Rear position makes
    [stitch_group] raise a bare [StopIteration] before it touches the disk:
    no directory is created and no output file is written. *)
Theorem stitch_group_without_rear
    (ffmpeg_run : fs -> string -> string -> string -> string -> engine_run)
    (group : FileGroup.t) (w : fs) :
  lacks Position.REAR group ->
  stitch_group ffmpeg_run group w = (w, Raise StopIteration).
Proof.
  intros Hlacks. unfold stitch_group, FileGroup.get_by_position.
  destruct (FileGroup.first_at Position.FRONT _) as [front|e] eqn:Ef.
  2: { apply first_at_raises in Ef. subst. reflexivity. }
  destruct (FileGroup.first_at Position.INTERNAL _) as [internal|e] eqn:Ei.
  2: { apply first_at_raises in Ei. subst. reflexivity. }
  rewrite (first_at_lacks _ _ Hlacks). reflexivity.
Qed.

Lemma stitch_group_without_rear_witness :
  lacks Position.REAR (group_without_rear 417)
  /\ stitch_group engine_ok (group_without_rear 417) ∅ = (∅, Raise StopIteration).
Proof.
  assert (H : lacks Position.REAR (group_without_rear 417)).
  { repeat constructor; discriminate. }
  split; [exact H|].
  apply (stitch_group_without_rear engine_ok (group_without_rear 417) ∅ H).
Defined.

(** C5, as the specification words it, fails: the error raised for group 417
    and the one raised for group 418 are the same value, so no reading of it
    recovers the group id. *)
Lemma rear_error_is_anonymous :
  ~ exists describe, rear_error_names_group engine_ok describe.
Proof.
  intros [describe H].
  destruct (H (group_without_rear 417) ∅) as (e1 & He1 & Hd1).
  { repeat constructor; discriminate. }
  destruct (H (group_without_rear 418) ∅) as (e2 & He2 & Hd2).
  { repeat constructor; discriminate. }
  vm_compute in He1, He2.
  inversion He1; inversion He2; subst.
  rewrite Hd1 in Hd2. discriminate.
Qed.

(** ** The concatenator *)



(** ** Digits and [int] *)

Lemma is_digit_cases (c : ascii) :
  Str.is_digit c = true ->
  c ∈ ["0"; "1"; "2"; "3"; "4"; "5"; "6"; "7"; "8"; "9"]%char.
Proof.
  destruct c as [[] [] [] [] [] [] [] []]; intros H;
    try (vm_compute in H; discriminate H);
    repeat (first [apply list_elem_of_here | apply list_elem_of_further]).
Qed.

Lemma digit_not_space (c : ascii) : Str.is_digit c = true -> Str.is_space c = false.
Proof.
  unfold Str.is_digit, Str.is_space. intros H.
  apply andb_true_iff in H as [H1 H2].
  apply Z.leb_le in H1. apply Z.leb_le in H2.
  apply orb_false_iff. split.
  - apply andb_false_iff. right. apply Z.leb_gt. lia.
  - apply Z.eqb_neq. lia.
Qed.

Lemma span_all_digits (s : string) :
  all_digits s = true ->
  Py.span_digits s = (map Str.digit_value (list_ascii_of_string s), EmptyString).
Proof.
  unfold all_digits. induction s as [|c s IH]; simpl; [reflexivity|].
  intros H. apply andb_true_iff in H as [Hc Hs].
  rewrite Hc, (IH Hs). reflexivity.
Qed.

Lemma length_list_ascii (s : string) :
  length (list_ascii_of_string s) = String.length s.
Proof. induction s; simpl; congruence. Qed.

(** On a non-empty string of digits within the conversion limit, [int]
    returns the number it denotes. *)
Lemma int_decimal (s : string) :
  (1 <= String.length s)%nat ->
  (String.length s <= Py.int_max_str_digits)%nat ->
  all_digits s = true ->
  Py.int s = Ok (decimal s).
Proof.
  intros Hne Hmax Hd. destruct s as [|c s]; [simpl in Hne; lia|].
  pose proof Hd as Hd'. unfold all_digits in Hd'. simpl in Hd'.
  apply andb_true_iff in Hd' as [Hc _].
  unfold Py.int.
  assert (Hstrip : Py.lstrip (String c s) = String c s).
  { simpl. rewrite (digit_not_space c Hc). reflexivity. }
  assert (Hsign : Py.strip_sign (String c s) = (false, String c s)).
  { apply is_digit_cases in Hc.
    repeat (apply elem_of_cons in Hc as [->|Hc]; [reflexivity|]).
    inversion Hc. }
  rewrite Hstrip, Hsign, (span_all_digits _ Hd).
  unfold decimal.
  destruct (map Str.digit_value (list_ascii_of_string (String c s))) as [|d ds] eqn:E;
    [discriminate|].
  rewrite <- E.
  assert (Hlen : length (map Str.digit_value (list_ascii_of_string (String c s)))
                 = String.length (String c s)).
  { rewrite length_map. apply length_list_ascii. }
  rewrite Hlen.
  destruct (Py.int_max_str_digits <? String.length (String c s))%nat eqn:El.
  - apply Nat.ltb_lt in El. lia.
  - reflexivity.
Qed.

(** ** The regular expressions on two-digit fields *)

Ltac digit_cases H :=
  apply is_digit_cases in H;
  repeat (apply elem_of_cons in H as [->|H]);
  [..|inversion H].

Section TwoDigitFields.
Context (k : string -> option (list string * string)).
Context (a b : ascii) (rest : string) (ms : list string) (rest' : string).
Hypothesis Ha : Str.is_digit a = true.
Hypothesis Hb : Str.is_digit b = true.
Hypothesis Hk : k rest = Some (ms, rest').

Ltac field_cases H :=
  digit_cases Ha; digit_cases Hb;
  try (vm_compute in H; discriminate H);
  vm_compute; rewrite Hk; reflexivity.

Lemma try_alts_month :
  (1 <=? decimal (two a b)) && (decimal (two a b) <=? 12) = true ->
  Py.try_alts k Py.re_m (String a (String b rest)) = Some (two a b :: ms, rest').
Proof. intros H. field_cases H. Qed.

Lemma try_alts_day :
  (1 <=? decimal (two a b)) && (decimal (two a b) <=? 31) = true ->
  Py.try_alts k Py.re_d (String a (String b rest)) = Some (two a b :: ms, rest').
Proof. intros H. field_cases H. Qed.

Lemma try_alts_hour :
  (decimal (two a b) <=? 23) = true ->
  Py.try_alts k Py.re_H (String a (String b rest)) = Some (two a b :: ms, rest').
Proof. intros H. field_cases H. Qed.

Lemma try_alts_minute :
  (decimal (two a b) <=? 59) = true ->
  Py.try_alts k Py.re_M (String a (String b rest)) = Some (two a b :: ms, rest').
Proof. intros H. field_cases H. Qed.

Lemma try_alts_second :
  (decimal (two a b) <=? 59) = true ->
  Py.try_alts k Py.re_S (String a (String b rest)) = Some (two a b :: ms, rest').
Proof. intros H. field_cases H. Qed.

End TwoDigitFields.

Lemma try_alts_year (k : string -> option (list string * string))
    (y1 y2 y3 y4 : ascii) (rest : string) (ms : list string) (rest' : string) :
  Str.is_digit y1 = true -> Str.is_digit y2 = true ->
  Str.is_digit y3 = true -> Str.is_digit y4 = true ->
  k rest = Some (ms, rest') ->
  Py.try_alts k Py.re_Y (String y1 (String y2 (String y3 (String y4 rest))))
  = Some (String y1 (String y2 (String y3 (String y4 EmptyString))) :: ms, rest').
Proof.
  intros H1 H2 H3 H4 Hk. unfold Py.re_Y.
  cbn [Py.try_alts Py.match_alt Py.cclass_match].
  rewrite H1, H2, H3, H4, Hk. reflexivity.
Qed.

Lemma digit_value_range (c : ascii) :
  Str.is_digit c = true -> 0 <= Str.digit_value c <= 9.
Proof.
  unfold Str.is_digit, Str.digit_value. intros H.
  apply andb_true_iff in H as [H1 H2].
  apply Z.leb_le in H1. apply Z.leb_le in H2. lia.
Qed.

Lemma calendar_days_in_month (y m : Z) :
  1 <= m <= 12 -> calendar_days y m = Py.days_in_month y m.
Proof.
  intros Hm.
  assert (Hcases : m = 1 \/ m = 2 \/ m = 3 \/ m = 4 \/ m = 5 \/ m = 6 \/ m = 7
                   \/ m = 8 \/ m = 9 \/ m = 10 \/ m = 11 \/ m = 12) by lia.
  unfold Py.days_in_month, Py.is_leap.
  repeat (destruct Hcases as [Hc|Hcases]); subst m; simpl; reflexivity.
Qed.

Lemma calendar_days_le (y m : Z) : calendar_days y m <= 31.
Proof.
  unfold calendar_days.
  repeat match goal with
         | |- context [match ?x with _ => _ end] => destruct x
         end; lia.
Qed.


(** ** [strptime] on schema dates and times *)

Lemma int_two (a b : ascii) :
  Str.is_digit a = true -> Str.is_digit b = true ->
  Py.int (two a b) = Ok (decimal (two a b)).
Proof.
  intros Ha Hb. apply int_decimal.
  - simpl. lia.
  - unfold Py.int_max_str_digits. simpl. lia.
  - unfold all_digits. simpl. rewrite Ha, Hb. reflexivity.
Qed.

Lemma strptime_Ymd_schema (s : string) :
  schema_date s = true ->
  Py.strptime_Ymd s
  = Ok (Py.mk_datetime (date_year s) (date_month s) (date_day s) 0 0 0).
Proof.
  unfold schema_date. intros H.
  apply andb_true_iff in H as [H Hdhi]. apply andb_true_iff in H as [H Hdlo].
  apply andb_true_iff in H as [H Hmhi]. apply andb_true_iff in H as [H Hmlo].
  apply andb_true_iff in H as [H Hylo]. apply andb_true_iff in H as [Hlen Hdig].
  apply Nat.eqb_eq in Hlen.
  destruct s as [|y1 [|y2 [|y3 [|y4 [|m1 [|m2 [|d1 [|d2 [|? ?]]]]]]]]];
    try discriminate Hlen. clear Hlen.
  unfold date_year, date_month, date_day in *.
  cbn [substring] in *.
  unfold all_digits in Hdig. cbn [list_ascii_of_string forallb] in Hdig.
  apply andb_true_iff in Hdig as [Hy1 Hdig]. apply andb_true_iff in Hdig as [Hy2 Hdig].
  apply andb_true_iff in Hdig as [Hy3 Hdig]. apply andb_true_iff in Hdig as [Hy4 Hdig].
  apply andb_true_iff in Hdig as [Hm1 Hdig]. apply andb_true_iff in Hdig as [Hm2 Hdig].
  apply andb_true_iff in Hdig as [Hd1 Hdig]. apply andb_true_iff in Hdig as [Hd2 _].
  set (y := String y1 (String y2 (String y3 (String y4 EmptyString)))) in *.
  fold (two m1 m2) in *. fold (two d1 d2) in *.
  assert (Hday : (1 <=? decimal (two d1 d2)) && (decimal (two d1 d2) <=? 31) = true).
  { apply andb_true_iff. split; [exact Hdlo|].
    apply Z.leb_le. apply Z.leb_le in Hdhi.
    pose proof (calendar_days_le (decimal y) (decimal (two m1 m2))). lia. }
  assert (Hmonth : (1 <=? decimal (two m1 m2)) && (decimal (two m1 m2) <=? 12) = true).
  { apply andb_true_iff. split; assumption. }
  unfold Py.strptime_Ymd, Py.strptime_groups. cbn [Py.re_match].
  erewrite try_alts_year; try eassumption.
  2: { eapply try_alts_month; try eassumption.
       eapply try_alts_day; try eassumption. reflexivity. }
  cbn [mbind result_bind]. fold y.
  assert (Hy : Py.int y = Ok (decimal y)).
  { apply int_decimal.
    - simpl. lia.
    - unfold Py.int_max_str_digits. simpl. lia.
    - unfold all_digits. subst y. simpl. rewrite Hy1, Hy2, Hy3, Hy4. reflexivity. }
  rewrite Hy, (int_two m1 m2), (int_two d1 d2) by assumption.
  cbn [mbind result_bind].
  unfold Py.new_datetime, Py.check_date_fields.
  assert (Hyear : (Py.MINYEAR <=? decimal y) && (decimal y <=? Py.MAXYEAR) = true).
  { apply andb_true_iff. split; [exact Hylo|].
    apply Z.leb_le. subst y. unfold decimal, Py.digits_value, Py.MAXYEAR. simpl.
    pose proof (digit_value_range y1 Hy1). pose proof (digit_value_range y2 Hy2).
    pose proof (digit_value_range y3 Hy3). pose proof (digit_value_range y4 Hy4).
    lia. }
  rewrite Hyear, Hmonth. cbn [negb].
  rewrite <- calendar_days_in_month
    by (split; apply Z.leb_le; assumption).
  rewrite Hdlo, Hdhi. reflexivity.
Qed.

Lemma strptime_HMS_schema (s : string) :
  schema_time s = true ->
  Py.strptime_HMS s
  = Ok (Py.mk_datetime 1900 1 1 (time_hour s) (time_minute s) (time_second s)).
Proof.
  unfold schema_time. intros H.
  apply andb_true_iff in H as [H Hs]. apply andb_true_iff in H as [H Hmi].
  apply andb_true_iff in H as [H Hh]. apply andb_true_iff in H as [Hlen Hdig].
  apply Nat.eqb_eq in Hlen.
  destruct s as [|h1 [|h2 [|m1 [|m2 [|s1 [|s2 [|? ?]]]]]]];
    try discriminate Hlen. clear Hlen.
  unfold time_hour, time_minute, time_second in *.
  cbn [substring] in *.
  unfold all_digits in Hdig. cbn [list_ascii_of_string forallb] in Hdig.
  apply andb_true_iff in Hdig as [Hh1 Hdig]. apply andb_true_iff in Hdig as [Hh2 Hdig].
  apply andb_true_iff in Hdig as [Hm1 Hdig]. apply andb_true_iff in Hdig as [Hm2 Hdig].
  apply andb_true_iff in Hdig as [Hs1 Hdig]. apply andb_true_iff in Hdig as [Hs2 _].
  fold (two h1 h2) in *. fold (two m1 m2) in *. fold (two s1 s2) in *.
  unfold Py.strptime_HMS, Py.strptime_groups. cbn [Py.re_match].
  erewrite try_alts_hour; try eassumption.
  2: { eapply try_alts_minute; try eassumption.
       eapply try_alts_second; try eassumption. reflexivity. }
  cbn [mbind result_bind].
  rewrite (int_two h1 h2), (int_two m1 m2), (int_two s1 s2) by assumption.
  cbn [mbind result_bind].
  unfold Py.new_datetime, Py.check_time_fields.
  assert (Hnonneg : forall a b, Str.is_digit a = true -> Str.is_digit b = true ->
                                (0 <=? decimal (two a b)) = true).
  { intros a b Ha Hb. apply Z.leb_le. unfold decimal, Py.digits_value. simpl.
    pose proof (digit_value_range a Ha). pose proof (digit_value_range b Hb). lia. }
  rewrite !Hnonneg by assumption. rewrite Hh, Hmi, Hs. reflexivity.
Qed.

(** ** The parser on schema names *)

Lemma schema_type_of_value (s : string) (v : VideoType.t) :
  schema_type s = Some v -> VideoType.of_value s = Ok v.
Proof.
  unfold schema_type, VideoType.of_value.
  repeat destruct (String.eqb s _); congruence.
Qed.

Lemma schema_position_of_value (s : string) (p : Position.t) :
  schema_position s = Some p -> Position.of_value s = Ok p.
Proof.
  unfold schema_position, Position.of_value.
  repeat destruct (String.eqb s _); congruence.
Qed.

(** On a stem of the schema the parser returns the schema's record. *)
Lemma from_path_schema_record (path : Path.t) (r : VideoFileInfo.t) :
  schema_record (Path.stem path) path = Some r ->
  VideoFileInfo.from_path path = Ok r.
Proof.
  unfold schema_record, VideoFileInfo.from_path.
  destruct (Str.split "_" (Path.stem path))
    as [|date [|time [|gid [|type [|position [|? ?]]]]]]; try discriminate.
  destruct (schema_date date && schema_time time && schema_group_id gid) eqn:E;
    [|discriminate].
  apply andb_true_iff in E as [E Hgid]. apply andb_true_iff in E as [Hdate Htime].
  unfold schema_group_id in Hgid.
  apply andb_true_iff in Hgid as [Hgid Hdig]. apply andb_true_iff in Hgid as [Hlo Hhi].
  apply Nat.leb_le in Hlo. apply Nat.leb_le in Hhi.
  rewrite (int_decimal gid Hlo Hhi Hdig).
  rewrite (strptime_Ymd_schema date Hdate), (strptime_HMS_schema time Htime).
  destruct (schema_type type) as [v|] eqn:Ev; [|discriminate].
  destruct (schema_position position) as [p|] eqn:Ep; [|discriminate].
  rewrite (schema_type_of_value _ _ Ev), (schema_position_of_value _ _ Ep).
  cbn. intros [= <-]. reflexivity.
Qed.

Lemma schema_record_path (stem : string) (path path' : Path.t) (r : VideoFileInfo.t) :
  schema_record stem path = Some r ->
  schema_record stem path'
  = Some (VideoFileInfo.mk (VideoFileInfo.ts r) (VideoFileInfo.id r)
            (VideoFileInfo.video_type r) (VideoFileInfo.position r) path')
  /\ VideoFileInfo.file r = path.
Proof.
  unfold schema_record.
  destruct (Str.split "_" stem)
    as [|date [|time [|gid [|type [|position [|? ?]]]]]]; try discriminate.
  destruct (schema_date date && schema_time time && schema_group_id gid);
    [|discriminate].
  destruct (schema_type type) as [v|]; [|discriminate].
  destruct (schema_position position) as [p|]; [|discriminate].
  cbn. intros [= <-]. split; reflexivity.
Qed.

(** C9: on every path whose stem follows the schema the parser returns a
    record (it is total there); the record is the one the schema assigns to
    the stem, so its decoded fields depend on the stem alone, and parsing a
    path again, or any path of the same stem, decodes the same fields. *)
Theorem from_path_total_deterministic (path : Path.t) :
  matches_schema (Path.stem path) = true ->
  exists r,
    VideoFileInfo.from_path path = Ok r
    /\ schema_record (Path.stem path) path = Some r
    /\ VideoFileInfo.file r = path
    /\ forall path', Path.stem path' = Path.stem path ->
         VideoFileInfo.from_path path'
         = Ok (VideoFileInfo.mk (VideoFileInfo.ts r) (VideoFileInfo.id r)
                 (VideoFileInfo.video_type r) (VideoFileInfo.position r) path').
Proof.
  unfold matches_schema. intros H.
  destruct (schema_record (Path.stem path) (Path.mk false [])) as [r0|] eqn:E;
    [|discriminate].
  destruct (schema_record_path _ _ path _ E) as [Hr _].
  eexists. split; [apply from_path_schema_record, Hr|].
  split; [exact Hr|]. split; [reflexivity|].
  intros path' Hstem. cbn.
  apply from_path_schema_record. rewrite Hstem.
  destruct (schema_record_path _ _ path' _ E) as [Hr' _]. exact Hr'.
Qed.

Lemma from_path_total_deterministic_witness :
  exists r,
    VideoFileInfo.from_path sample_path = Ok r
    /\ VideoFileInfo.id r = 417.
Proof.
  destruct (from_path_total_deterministic sample_path) as (r & Hr & Hs & _).
  - vm_compute. reflexivity.
  - exists r. split; [exact Hr|].
    vm_compute in Hs. injection Hs as <-. reflexivity.
Defined.

(** ** The parser fails closed *)













(** ** Grouping a well-formed directory *)

Lemma pk_ltb_trans_neg (x y z : FileGroup.t) :
  pk_ltb y x = false -> pk_ltb z y = false -> pk_ltb z x = false.
Proof. unfold pk_ltb. rewrite !Z.ltb_ge. lia. Qed.

Lemma pk_ltb_asym (x y : FileGroup.t) : pk_ltb x y = true -> pk_ltb y x = false.
Proof. unfold pk_ltb. rewrite Z.ltb_lt, Z.ltb_ge. lia. Qed.

Lemma sorted_by_pk_strict (l : list FileGroup.t) :
  StronglySorted (not_after pk_ltb) l ->
  NoDup (map FileGroup.pk l) ->
  StronglySorted Z.lt (map FileGroup.pk l).
Proof.
  induction 1 as [|x l Hs IH Hx]; intros Hnd; simpl; [constructor|].
  apply NoDup_cons in Hnd as [Hnin Hnd].
  constructor; [apply IH, Hnd|].
  apply List.Forall_forall. intros k Hk.
  apply in_map_iff in Hk as (y & <- & Hy).
  rewrite List.Forall_forall in Hx. specialize (Hx y Hy).
  unfold not_after, pk_ltb in Hx. apply Z.ltb_ge in Hx.
  assert (FileGroup.pk x <> FileGroup.pk y).
  { intros E. apply Hnin. rewrite E. apply list_elem_of_In, in_map, Hy. }
  lia.
Qed.

Lemma group_of_bucket_keys (groups : buckets) (fgs : list FileGroup.t) :
  Forall2 group_of_bucket groups fgs -> map FileGroup.pk fgs = map fst groups.
Proof.
  induction 1 as [|b fg groups fgs (Hk & _) _ IH]; simpl; [reflexivity|].
  rewrite Hk, IH. reflexivity.
Qed.

Lemma first_at_found (position : Position.t) (files : list VideoFileInfo.t)
    (vf : VideoFileInfo.t) :
  In vf files -> VideoFileInfo.position vf = position ->
  exists vf', FileGroup.first_at position files = Ok vf'
              /\ VideoFileInfo.position vf' = position.
Proof.
  induction files as [|file files IH]; intros Hin Hp; [contradiction|].
  simpl. destruct (Position.eqb (VideoFileInfo.position file) position) eqn:E.
  - exists file. split; [reflexivity|]. apply position_eqb_eq, E.
  - destruct Hin as [->|Hin].
    + apply position_eqb_eq in Hp. congruence.
    + apply IH; assumption.
Qed.

Lemma well_formed_groupb_sound (vfs : list VideoFileInfo.t) (gid : Z) :
  well_formed_groupb vfs gid = true -> well_formed_group vfs gid.
Proof.
  unfold well_formed_groupb, well_formed_group. intros H.
  apply andb_true_iff in H as [Hlen Hpos]. apply Nat.eqb_eq in Hlen.
  split; [exact Hlen|]. intros position.
  rewrite forallb_forall in Hpos.
  assert (Hin : In position [Position.FRONT; Position.INTERNAL; Position.REAR])
    by (destruct position; simpl; tauto).
  apply Hpos, existsb_exists in Hin as (vf & Hvf & E).
  exists vf. split; [exact Hvf|]. apply position_eqb_eq, E.
Qed.

(** C1: when the discovered files all parse and form [length ids]
    well-formed groups, one per id of [ids], [parse_files] returns exactly
    that many groups, in strictly ascending order of group id; each holds
    the three records of its id, resolves every camera position, and
    carries the timestamp of the first of its files in discovery order. *)
Theorem parse_files_well_formed (source : Path.t) (entries : list string)
    (vfs : list VideoFileInfo.t) (ids : list Z) :
  parse_all (discovered source entries) = Ok vfs ->
  NoDup ids ->
  Forall (fun vf => VideoFileInfo.id vf ∈ ids) vfs ->
  Forall (well_formed_group vfs) ids ->
  exists groups,
    parse_files source entries = Ok groups
    /\ length groups = length ids
    /\ map FileGroup.pk groups ≡ₚ ids
    /\ StronglySorted Z.lt (map FileGroup.pk groups)
    /\ Forall (fun fg =>
         length (FileGroup.files fg) = 3%nat
         /\ FileGroup.files fg = with_id (FileGroup.pk fg) vfs
         /\ Some (FileGroup.ts fg) = VideoFileInfo.ts <$> head (FileGroup.files fg)
         /\ forall position, exists vf,
              FileGroup.get_by_position fg position = Ok vf
              /\ VideoFileInfo.position vf = position) groups.
Proof.
  intros Hparse Hnd Hids Hwf.
  destruct (parse_files_parsed _ _ _ Hparse) as (fgs & Hres & Hall).
  exists (py_sorted pk_ltb fgs).
  assert (Hkeys : map FileGroup.pk (py_sorted pk_ltb fgs) ≡ₚ ids).
  { rewrite py_sorted_perm, (group_of_bucket_keys _ _ Hall).
    apply NoDup_Permutation; [apply keys_fill_NoDup; constructor|exact Hnd|].
    intros k. rewrite keys_fill_elem. split.
    - intros [Hk|Hk]; [inversion Hk|].
      apply list_elem_of_fmap in Hk as (vf & -> & Hvf).
      rewrite List.Forall_forall in Hids. apply Hids, list_elem_of_In, Hvf.
    - intros Hk. right.
      rewrite List.Forall_forall in Hwf.
      destruct (Hwf k (proj1 (list_elem_of_In _ _) Hk)) as [Hlen _].
      destruct (with_id k vfs) as [|vf rest] eqn:E; [discriminate|].
      assert (Hin : In vf (with_id k vfs)) by (rewrite E; left; reflexivity).
      unfold with_id in Hin. apply filter_In in Hin as [Hin Hid].
      apply Z.eqb_eq in Hid. subst k.
      apply list_elem_of_fmap. exists vf. split; [reflexivity|].
      apply list_elem_of_In, Hin. }
  split; [exact Hres|].
  split; [rewrite <- (length_map FileGroup.pk), Hkeys; reflexivity|].
  split; [exact Hkeys|].
  split.
  { apply sorted_by_pk_strict.
    - apply py_sorted_sorted; [apply pk_ltb_trans_neg|apply pk_ltb_asym].
    - rewrite Hkeys. exact Hnd. }
  apply List.Forall_forall. intros fg Hfg. apply list_elem_of_In in Hfg.
  destruct (parse_files_groups _ _ _ _ Hparse Hres fg Hfg) as (Hf & Hk & Hts).
  assert (Hin : FileGroup.pk fg ∈ ids).
  { rewrite <- Hkeys. apply list_elem_of_fmap. exists fg. split; [reflexivity|exact Hfg]. }
  rewrite List.Forall_forall in Hwf.
  destruct (Hwf _ (proj1 (list_elem_of_In _ _) Hin)) as [Hlen Hpos].
  rewrite Hf. repeat split; try assumption.
  - rewrite <- Hf. exact Hts.
  - intros position. destruct (Hpos position) as (vf & Hvf & Hp).
    unfold FileGroup.get_by_position. rewrite Hf.
    eapply first_at_found; eassumption.
Qed.

Lemma parse_files_well_formed_witness :
  exists groups,
    parse_files sample_source sample_entries = Ok groups
    /\ length groups = 2%nat
    /\ StronglySorted Z.lt (map FileGroup.pk groups)
    /\ Forall (fun fg => length (FileGroup.files fg) = 3%nat) groups.
Proof.
  destruct (parse_files_well_formed sample_source sample_entries
              sample_records [418; 417])
    as (groups & Hres & Hlen & _ & Hsorted & Hall).
  - vm_compute. reflexivity.
  - apply NoDup_cons. split; [|apply NoDup_singleton].
    intros H. apply list_elem_of_singleton in H. discriminate H.
  - repeat constructor;
      first [apply list_elem_of_here | apply list_elem_of_further, list_elem_of_here].
  - assert (Hwf : forall gid, gid = 418 \/ gid = 417 ->
                    well_formed_group sample_records gid).
    { intros gid [->| ->]; apply well_formed_groupb_sound; vm_compute; reflexivity. }
    constructor; [apply Hwf; tauto|].
    constructor; [apply Hwf; tauto|]. constructor.
  - exists groups. split; [exact Hres|]. split; [exact Hlen|].
    split; [exact Hsorted|].
    eapply Forall_impl; [exact Hall|]. intros fg H. apply H.
Defined.

(** ** The worker pool *)

Section PoolFacts.
Context (ffmpeg_run : fs -> string -> string -> string -> string -> engine_run).
Context (max_workers : nat).

Lemma dispatch_pending (running queue : list (nat * FileGroup.t)) :
  ((dispatch max_workers running queue).1 ++ (dispatch max_workers running queue).2
   = running ++ queue)%list.
Proof.
  revert running. induction queue as [|job queue IH]; intros running; simpl.
  - reflexivity.
  - destruct (length running <? max_workers)%nat; [|reflexivity].
    rewrite IH, <- app_assoc. reflexivity.
Qed.

Lemma dispatch_nonempty (running queue : list (nat * FileGroup.t)) :
  (0 < max_workers)%nat -> (running ++ queue)%list <> [] ->
  (dispatch max_workers running queue).1 <> [].
Proof.
  intros Hmw. revert running.
  induction queue as [|job queue IH]; intros running Hne; simpl.
  - rewrite app_nil_r in Hne. exact Hne.
  - destruct (length running <? max_workers)%nat eqn:E.
    + apply IH. rewrite <- app_assoc. exact Hne.
    + apply Nat.ltb_ge in E. simpl. destruct running; [simpl in E; lia|discriminate].
Qed.

(** One round of the pool, when a job is there to finish. *)
Lemma run_pool_round (schedule : list nat) (fuel : nat) (p : pool)
    (k i : nat) (group : FileGroup.t) :
  k = choose (hd 0%nat schedule) (dispatch max_workers (running p) (queue p)).1 ->
  (dispatch max_workers (running p) (queue p)).1 !! k = Some (i, group) ->
  run_pool ffmpeg_run max_workers schedule (S fuel) p
  = run_pool ffmpeg_run max_workers (tl schedule) fuel
      (mk_pool (dispatch max_workers (running p) (queue p)).2
         (delete k (dispatch max_workers (running p) (queue p)).1)
         (<[i := (stitch_group ffmpeg_run group (world p)).2]> (futures p))
         (completion_order p ++ [i])%list
         (stitch_group ffmpeg_run group (world p)).1).
Proof.
  intros -> Hk. cbn [run_pool].
  destruct (dispatch max_workers (running p) (queue p)) as [running' queue'].
  cbn [fst snd] in *. rewrite Hk.
  destruct (stitch_group ffmpeg_run group (world p)) as [w r]. reflexivity.
Qed.

Lemma run_pool_idle (schedule : list nat) (fuel : nat) (p : pool) (k : nat) :
  k = choose (hd 0%nat schedule) (dispatch max_workers (running p) (queue p)).1 ->
  (dispatch max_workers (running p) (queue p)).1 !! k = None ->
  futures (run_pool ffmpeg_run max_workers schedule (S fuel) p) = futures p.
Proof.
  intros -> Hk. cbn [run_pool].
  destruct (dispatch max_workers (running p) (queue p)) as [running' queue'].
  cbn [fst snd] in *. rewrite Hk. reflexivity.
Qed.

(** What is left pending after a round. *)
Lemma pending_after_round (p : pool) (k i : nat) (group : FileGroup.t) :
  (dispatch max_workers (running p) (queue p)).1 !! k = Some (i, group) ->
  pending p
  ≡ₚ (i, group)
     :: (delete k (dispatch max_workers (running p) (queue p)).1
         ++ (dispatch max_workers (running p) (queue p)).2)%list.
Proof.
  intros Hk. unfold pending. rewrite <- dispatch_pending.
  rewrite (delete_Permutation _ _ _ Hk) at 1. reflexivity.
Qed.

(** A finished job's future is not touched again. *)
Lemma run_pool_frame (schedule : list nat) (fuel : nat) (p : pool) (i : nat) :
  i ∉ map fst (pending p) ->
  futures (run_pool ffmpeg_run max_workers schedule fuel p) !! i = futures p !! i.
Proof.
  revert schedule p. induction fuel as [|fuel IH]; intros schedule p Hi;
    [reflexivity|].
  set (k := choose (hd 0%nat schedule) (dispatch max_workers (running p) (queue p)).1).
  destruct ((dispatch max_workers (running p) (queue p)).1 !! k)
    as [[j group]|] eqn:Hk.
  - rewrite (run_pool_round schedule fuel p k j group eq_refl Hk).
    pose proof (pending_after_round p k j group Hk) as Hperm.
    rewrite IH.
    + cbn [futures]. apply lookup_insert_ne.
      intros <-. apply Hi. rewrite Hperm. apply list_elem_of_here.
    + cbn [pending running queue]. intros Hin. apply Hi.
      rewrite Hperm. apply list_elem_of_further, Hin.
  - rewrite (run_pool_idle schedule fuel p k eq_refl Hk). reflexivity.
Qed.

(** Every pending job finishes, with the result of [stitch_group] on the
    disk of that moment. *)
Lemma run_pool_completes (schedule : list nat) (fuel : nat) (p : pool) :
  (0 < max_workers)%nat ->
  (length (pending p) <= fuel)%nat ->
  NoDup (map fst (pending p)) ->
  forall i group, (i, group) ∈ pending p ->
    exists w,
      futures (run_pool ffmpeg_run max_workers schedule fuel p) !! i
      = Some (stitch_group ffmpeg_run group w).2.
Proof.
  intros Hmw. revert schedule p.
  induction fuel as [|fuel IH]; intros schedule p Hlen Hnd i group Hin.
  - destruct (pending p); [inversion Hin|simpl in Hlen; lia].
  - set (k := choose (hd 0%nat schedule) (dispatch max_workers (running p) (queue p)).1).
    assert (Hne : (dispatch max_workers (running p) (queue p)).1 <> []).
    { apply dispatch_nonempty; [exact Hmw|].
      fold (pending p). intros E. rewrite E in Hin. inversion Hin. }
    assert (Hlt : (k < length (dispatch max_workers (running p) (queue p)).1)%nat).
    { subst k. unfold choose. apply Nat.mod_upper_bound.
      destruct (dispatch max_workers (running p) (queue p)).1;
        [contradiction|discriminate]. }
    apply lookup_lt_is_Some_2 in Hlt as [[j gj] Hk].
    rewrite (run_pool_round schedule fuel p k j gj eq_refl Hk).
    pose proof (pending_after_round p k j gj Hk) as Hperm.
    rewrite Hperm in Hin, Hnd. rewrite Hperm in Hlen.
    cbn [map fst] in Hnd. apply NoDup_cons in Hnd as [Hj Hnd].
    apply elem_of_cons in Hin as [Heq|Hin].
    + inversion Heq; subst j gj. exists (world p).
      rewrite run_pool_frame by exact Hj.
      cbn [futures]. apply lookup_insert_eq.
    + apply IH; [unfold pending; cbn [running queue length] in *; lia|exact Hnd|exact Hin].
Qed.

End PoolFacts.

(** ** The orchestrator *)

Section OrchestratorFacts.
Context (ffmpeg_run : fs -> string -> string -> string -> string -> engine_run).

Lemma stitch_group_output (group : FileGroup.t) (w : fs) (out : Path.t) :
  (stitch_group ffmpeg_run group w).2 = Ok out ->
  out = output_file (FileGroup.pk group).
Proof.
  unfold stitch_group.
  destruct (FileGroup.get_by_position group Position.FRONT); [|discriminate].
  destruct (FileGroup.get_by_position group Position.INTERNAL); [|discriminate].
  destruct (FileGroup.get_by_position group Position.REAR); [|discriminate].
  match goal with |- context [failure ?r] => destruct (failure r) end;
    cbn [snd]; congruence.
Qed.

Lemma drain_in_order (results : gmap nat (result Path.t)) (groups : list FileGroup.t) :
  forall start : nat,
    (forall (i : nat) (group : FileGroup.t), groups !! i = Some group ->
       exists w, results !! (start + i)%nat = Some (stitch_group ffmpeg_run group w).2) ->
    drained_in_order results start groups
      (drain results (zip groups (seq start (length groups)))).
Proof.
  induction groups as [|group groups IH]; intros start Hdone.
  - exists 0%nat. cbn. repeat split; [lia|intros; lia|].
    left. repeat split.
  - cbn [length seq zip zip_with drain].
    destruct (Hdone 0%nat group eq_refl) as [w Hw].
    rewrite Nat.add_0_r in Hw. rewrite Hw.
    destruct (stitch_group ffmpeg_run group w).2 as [out|e] eqn:E.
    + apply stitch_group_output in E. subst out.
      destruct (IH (S start)) as (n & Hn & Hy & Hbefore & Hend).
      { intros i g Hg. destruct (Hdone (S i) g Hg) as [w' Hw'].
        exists w'. rewrite <- Hw'. f_equal. lia. }
      exists (S n). cbn [yielded printed ended length take map].
      split; [lia|]. split; [rewrite Hy; reflexivity|]. split.
      * intros [|i] g Hi Hg.
        -- cbn in Hg. injection Hg as <-. rewrite Nat.add_0_r. exact Hw.
        -- cbn in Hg. replace (start + S i)%nat with (S start + i)%nat by lia.
           apply Hbefore; [lia|exact Hg].
      * destruct Hend as [(-> & He & Hp)|(g & e & Hg & Hr & He & Hp)].
        -- left. repeat split; assumption.
        -- right. exists g, e. cbn [lookup list_lookup].
           replace (start + S n)%nat with (S start + n)%nat by lia.
           repeat split; assumption.
    + exists 0%nat. cbn [yielded printed ended length take map].
      split; [lia|]. split; [reflexivity|]. split; [intros; lia|].
      right. exists group, e. rewrite Nat.add_0_r.
      repeat split. exact Hw.
Qed.

Lemma submitted_jobs (groups : list FileGroup.t) (start : nat) :
  map fst (map swap_job (zip groups (seq start (length groups))))
  = seq start (length groups).
Proof.
  revert start. induction groups as [|g groups IH]; intros start; [reflexivity|].
  cbn. f_equal. apply IH.
Qed.

Lemma submitted_lookup (groups : list FileGroup.t) (start i : nat) (group : FileGroup.t) :
  groups !! i = Some group ->
  ((start + i)%nat, group) ∈ map swap_job (zip groups (seq start (length groups))).
Proof.
  revert start i. induction groups as [|g groups IH]; intros start i Hi;
    [inversion Hi|].
  destruct i as [|i]; cbn in *.
  - injection Hi as ->. rewrite Nat.add_0_r. apply list_elem_of_here.
  - apply list_elem_of_further.
    replace (start + S i)%nat with (S start + i)%nat by lia. apply IH, Hi.
Qed.

(** Once the pool has shut down, every submitted job has its result. *)
Lemma pool_after_complete (groups : list FileGroup.t) (max_workers : nat)
    (schedule : list nat) (w : fs) (i : nat) (group : FileGroup.t) :
  (0 < max_workers)%nat ->
  groups !! i = Some group ->
  exists w',
    futures (pool_after ffmpeg_run groups max_workers schedule w) !! i
    = Some (stitch_group ffmpeg_run group w').2.
Proof.
  intros Hmw Hi. unfold pool_after, submit_all.
  apply run_pool_completes; [exact Hmw| | |].
  - unfold pending. cbn [running queue app].
    rewrite <- (length_map fst), submitted_jobs, length_seq. lia.
  - unfold pending. cbn [running queue app].
    rewrite submitted_jobs. apply NoDup_seq.
  - unfold pending. cbn [running queue app].
    apply (submitted_lookup groups 0 i group Hi).
Qed.

(** C2: for every list of groups, every pool size and every order in which
    the jobs finish, what [stitch_all] yields is a prefix of the groups, each
    with its output file, in the order of the list.  A pool size below one
    is refused before anything is yielded; otherwise the prefix ends only at
    the first failing job, so when no job fails every group is yielded. *)
Theorem stitch_all_submission_order (groups : list FileGroup.t) (max_workers : Z)
    (schedule : list nat) (w : fs) :
  let t := (stitch_all ffmpeg_run groups max_workers schedule w).2 in
  (exists n : nat, (n <= length groups)%nat
                   /\ yielded t = map stitched (take n groups))
  /\ (max_workers <= 0 ->
      t = mk_trace [] [] (Raised (ValueError BadMaxWorkers)))
  /\ (0 < max_workers ->
      drained_in_order
        (futures (pool_after ffmpeg_run groups (Z.to_nat max_workers) schedule w)) 0
        groups t).
Proof.
  cbv zeta. unfold stitch_all.
  destruct (max_workers <=? 0) eqn:E; cbn [snd].
  - apply Z.leb_le in E. split; [|split; [reflexivity|lia]].
    exists 0%nat. split; [lia|reflexivity].
  - apply Z.leb_gt in E.
    assert (Hdrained : drained_in_order
      (futures (pool_after ffmpeg_run groups (Z.to_nat max_workers) schedule w)) 0
      groups
      (drain (futures (pool_after ffmpeg_run groups (Z.to_nat max_workers) schedule w))
         (submit_all groups))).
    { unfold submit_all. apply drain_in_order.
      intros i group Hi. cbn [Nat.add].
      apply pool_after_complete; [lia|exact Hi]. }
    split; [|split; [lia|intros _; exact Hdrained]].
    destruct Hdrained as (n & Hn & Hy & _). exists n. split; assumption.
Qed.

End OrchestratorFacts.

(** Groups 1, 2, 3 on two workers, job 2 finishing before job 1: the
    results still come out as 1, 2, 3. *)
Lemma stitch_all_submission_order_witness :
  completion_order (pool_after engine_ok three_groups 2 second_first ∅)
  = [1%nat; 0%nat; 2%nat]
  /\ yielded (stitch_all engine_ok three_groups 2 second_first ∅).2
     = map stitched three_groups
  /\ drained_in_order
       (futures (pool_after engine_ok three_groups (Z.to_nat 2) second_first ∅)) 0
       three_groups
       (stitch_all engine_ok three_groups 2 second_first ∅).2.
Proof.
  split; [vm_compute; reflexivity|].
  split; [vm_compute; reflexivity|].
  apply (stitch_all_submission_order engine_ok three_groups 2 second_first ∅).
  lia.
Defined.

(** A job's error other than [StopIteration] leaves the generator as it
    is. *)
Lemma generator_raise_same (e : exn) :
  e <> StopIteration -> generator_raise e = e.
Proof. destruct e; try reflexivity. congruence. Qed.

(** C3, at the failing input: with the Rear file of group 2 missing,
    [stitch_all] yields group 1, reports group 2 with its job's error, a
    [StopIteration], and stops before group 3; but what it raises is a
    [RuntimeError] chained to that error, not the error itself. *)
Theorem stitch_all_replaces_stop_iteration :
  let run := stitch_all engine_ok three_groups_one_broken 2 second_first ∅ in
  futures (pool_after engine_ok three_groups_one_broken 2 second_first ∅) !! 1%nat
  = Some (Raise StopIteration)
  /\ yielded run.2 = [stitched (full_group 1)]
  /\ printed run.2 = [ErrorStitchingGroup (group_without_rear 2) StopIteration]
  /\ ended run.2 = Raised (RuntimeError "generator raised StopIteration" StopIteration)
  /\ ended run.2 <> Raised StopIteration.
Proof.
  cbv zeta. repeat split; try (vm_compute; reflexivity).
  vm_compute. discriminate.
Qed.

(** ** What the parser rejects

    The four kinds of deviation, each in a form that can be read off the
    stem. *)

(** A stem that does not split into five tokens. *)
Lemma rejects_token_count (stem : string) :
  length (Str.split "_" stem) <> 5%nat -> accepted stem = false.
Proof.
  unfold accepted.
  destruct (Str.split "_" stem) as [|? [|? [|? [|? [|? [|? ?]]]]]];
    try reflexivity.
  intros H. contradiction H. reflexivity.
Qed.

Lemma lstrip_numeral (s : string) :
  forallb numeral_char (list_ascii_of_string (Py.lstrip s)) = true ->
  forallb numeral_char (list_ascii_of_string s) = true.
Proof.
  induction s as [|c s IH]; [reflexivity|].
  cbn [Py.lstrip]. destruct (Str.is_space c) eqn:E; [|trivial].
  intros H. cbn [list_ascii_of_string forallb]. rewrite (IH H).
  unfold numeral_char. rewrite E, orb_true_r. reflexivity.
Qed.

Lemma all_space_numeral (s : string) :
  Py.all_space s = true -> forallb numeral_char (list_ascii_of_string s) = true.
Proof.
  induction s as [|c s IH]; [reflexivity|].
  cbn. intros H. apply andb_true_iff in H as [Hc Hs].
  rewrite (IH Hs). unfold numeral_char. rewrite Hc, orb_true_r. reflexivity.
Qed.

Lemma span_digits_numeral (s : string) :
  Py.all_space (Py.span_digits s).2 = true ->
  forallb numeral_char (list_ascii_of_string s) = true.
Proof.
  induction s as [|c s IH]; [reflexivity|].
  cbn [Py.span_digits]. destruct (Str.is_digit c) eqn:E.
  - destruct (Py.span_digits s) as [ds rest]. cbn [snd] in *.
    intros H. cbn [list_ascii_of_string forallb]. rewrite (IH H).
    unfold numeral_char. rewrite E. reflexivity.
  - cbn [snd]. apply all_space_numeral.
Qed.

(** A group id with a character that is no digit, blank or sign. *)
Lemma int_rejects_non_numeral (s : string) :
  forallb numeral_char (list_ascii_of_string s) = false ->
  is_ok (Py.int s) = false.
Proof.
  intros Hbad. destruct (Py.int s) as [n|e] eqn:E; [|reflexivity].
  exfalso. rewrite <- not_true_iff_false in Hbad. apply Hbad.
  apply lstrip_numeral.
  unfold Py.int in E.
  destruct (Py.strip_sign (Py.lstrip s)) as [negative body] eqn:Es.
  destruct (Py.span_digits body) as [ds rest] eqn:Ed.
  destruct ds as [|d ds]; [discriminate|].
  destruct (_ <? _)%nat; [discriminate|].
  destruct (Py.all_space rest) eqn:Er; [|discriminate].
  assert (Hbody : forallb numeral_char (list_ascii_of_string body) = true).
  { apply span_digits_numeral. rewrite Ed. exact Er. }
  unfold Py.strip_sign in Es.
  destruct (Py.lstrip s) as [|c s'] eqn:El; [injection Es as _ <-; exact Hbody|].
  destruct (Ascii.eqb c "+") eqn:Ep.
  { apply Ascii.eqb_eq in Ep. subst c. injection Es as _ <-.
    cbn [list_ascii_of_string forallb]. rewrite Hbody. reflexivity. }
  destruct (Ascii.eqb c "-") eqn:Em.
  { apply Ascii.eqb_eq in Em. subst c. injection Es as _ <-.
    cbn [list_ascii_of_string forallb]. rewrite Hbody. reflexivity. }
  assert (Es' : (false, String c s') = (negative, body)).
  { rewrite <- Es. destruct c as [[] [] [] [] [] [] [] []];
      first [reflexivity | discriminate Ep | discriminate Em]. }
  injection Es' as _ <-. exact Hbody.
Qed.

(** A type or position letter outside its closed set. *)
Lemma video_type_closed (s : string) :
  is_ok (VideoType.of_value s) = true <-> s ∈ ["N"; "E"; "P"].
Proof.
  unfold VideoType.of_value.
  destruct (String.eqb_spec s "N") as [->|H1]; [split; [intros _; repeat constructor|reflexivity]|].
  destruct (String.eqb_spec s "E") as [->|H2]; [split; [intros _; repeat constructor|reflexivity]|].
  destruct (String.eqb_spec s "P") as [->|H3]; [split; [intros _; repeat constructor|reflexivity]|].
  split; [discriminate|]. intros H.
  repeat (apply elem_of_cons in H as [H|H]; [contradiction|]). inversion H.
Qed.

Lemma position_closed (s : string) :
  is_ok (Position.of_value s) = true <-> s ∈ ["A"; "B"; "C"].
Proof.
  unfold Position.of_value.
  destruct (String.eqb_spec s "A") as [->|H1]; [split; [intros _; repeat constructor|reflexivity]|].
  destruct (String.eqb_spec s "B") as [->|H2]; [split; [intros _; repeat constructor|reflexivity]|].
  destruct (String.eqb_spec s "C") as [->|H3]; [split; [intros _; repeat constructor|reflexivity]|].
  split; [discriminate|]. intros H.
  repeat (apply elem_of_cons in H as [H|H]; [contradiction|]). inversion H.
Qed.

(** A date or time token of the wrong length. *)
Lemma match_alt_length (a : Py.alternative) (s m rest : string) :
  Py.match_alt a s = Some (m, rest) ->
  String.length s = (length a + String.length rest)%nat.
Proof.
  revert s m. induction a as [|k a IH]; intros s m; simpl.
  - intros [= _ ->]. reflexivity.
  - destruct s as [|c s]; [discriminate|].
    destruct (Py.cclass_match k c); [|discriminate].
    destruct (Py.match_alt a s) as [[m' rest']|] eqn:E; [|discriminate].
    intros [= _ <-]. simpl. f_equal. eapply IH, E.
Qed.

Lemma try_alts_length (k : string -> option (list string * string))
    (g : Py.group) (s : string) (ms : list string) (rest : string) :
  Py.try_alts k g s = Some (ms, rest) ->
  exists a r ms', In a g /\ String.length s = (length a + String.length r)%nat
                  /\ k r = Some (ms', rest).
Proof.
  induction g as [|a g IH]; simpl; [discriminate|].
  destruct (Py.match_alt a s) as [[m r]|] eqn:E.
  - destruct (k r) as [[ms' rest']|] eqn:Ek.
    + intros [= _ <-]. exists a, r, ms'.
      split; [left; reflexivity|]. split; [eapply match_alt_length, E|exact Ek].
    + intros H. destruct (IH H) as (a' & r' & ms' & Hin & Hlen & Hk).
      exists a', r', ms'. split; [right; exact Hin|]. split; assumption.
  - intros H. destruct (IH H) as (a' & r' & ms' & Hin & Hlen & Hk).
    exists a', r', ms'. split; [right; exact Hin|]. split; assumption.
Qed.

Lemma strptime_Ymd_length (s : string) :
  is_ok (Py.strptime_Ymd s) = true -> (6 <= String.length s <= 8)%nat.
Proof.
  unfold Py.strptime_Ymd, Py.strptime_groups.
  destruct (Py.re_match [Py.re_Y; Py.re_m; Py.re_d] s) as [[ms rest]|] eqn:E;
    [|discriminate].
  destruct rest as [|c rest]; [|discriminate]. intros _.
  cbn [Py.re_match] in E.
  apply try_alts_length in E as (a1 & r1 & ms1 & Ha1 & Hl1 & E).
  apply try_alts_length in E as (a2 & r2 & ms2 & Ha2 & Hl2 & E).
  apply try_alts_length in E as (a3 & r3 & ms3 & Ha3 & Hl3 & E).
  injection E as _ ->. simpl in Hl3.
  simpl in Ha1, Ha2, Ha3.
  repeat match goal with
         | H : _ \/ _ |- _ => destruct H as [H|H]
         | H : False |- _ => destruct H
         end; subst; simpl in *; lia.
Qed.

Lemma strptime_HMS_length (s : string) :
  is_ok (Py.strptime_HMS s) = true -> (3 <= String.length s <= 6)%nat.
Proof.
  unfold Py.strptime_HMS, Py.strptime_groups.
  destruct (Py.re_match [Py.re_H; Py.re_M; Py.re_S] s) as [[ms rest]|] eqn:E;
    [|discriminate].
  destruct rest as [|c rest]; [|discriminate]. intros _.
  cbn [Py.re_match] in E.
  apply try_alts_length in E as (a1 & r1 & ms1 & Ha1 & Hl1 & E).
  apply try_alts_length in E as (a2 & r2 & ms2 & Ha2 & Hl2 & E).
  apply try_alts_length in E as (a3 & r3 & ms3 & Ha3 & Hl3 & E).
  injection E as _ ->. simpl in Hl3.
  simpl in Ha1, Ha2, Ha3.
  repeat match goal with
         | H : _ \/ _ |- _ => destruct H as [H|H]
         | H : False |- _ => destruct H
         end; subst; simpl in *; lia.
Qed.

(** The deviations together: a wrong token count, a group id that is not a
    numeral, a date or time of the wrong length, or a letter outside its
    set, each makes the parser refuse the stem. *)
Lemma rejects_deviations (date time gid type position : string) (stem : string) :
  Str.split "_" stem = [date; time; gid; type; position] ->
  forallb numeral_char (list_ascii_of_string gid) = false
  \/ (String.length date < 6 \/ 8 < String.length date)%nat
  \/ (String.length time < 3 \/ 6 < String.length time)%nat
  \/ type ∉ ["N"; "E"; "P"]
  \/ position ∉ ["A"; "B"; "C"] ->
  accepted stem = false.
Proof.
  intros Hsplit Hdev. unfold accepted. rewrite Hsplit.
  apply not_true_iff_false. intros H.
  apply andb_true_iff in H as [H Hpos]. apply andb_true_iff in H as [H Htype].
  apply andb_true_iff in H as [H Htime]. apply andb_true_iff in H as [Hgid Hdate].
  destruct Hdev as [Hd|[Hd|[Hd|[Hd|Hd]]]].
  - rewrite (int_rejects_non_numeral _ Hd) in Hgid. discriminate.
  - apply strptime_Ymd_length in Hdate. lia.
  - apply strptime_HMS_length in Htime. lia.
  - apply Hd, video_type_closed, Htype.
  - apply Hd, position_closed, Hpos.
Qed.

(** When the engine fails instead, the error of the first job is what the
    generator raises, unchanged. *)
Example stitch_all_reraises_engine_error :
  (stitch_all engine_failing three_groups 2 second_first ∅).2
  = mk_trace []
      [ErrorStitchingGroup (full_group 1) (FfmpegError "Invalid data found")]
      (Raised (FfmpegError "Invalid data found")).
Proof. vm_compute. reflexivity. Qed.

(** A pool of no workers is refused before any job runs. *)
Example stitch_all_refuses_empty_pool :
  stitch_all engine_ok three_groups 0 [] ∅
  = (∅, mk_trace [] [] (Raised (ValueError BadMaxWorkers))).
Proof. reflexivity. Qed.

(** * Further properties *)

(** ** Lookup by position *)

(** X1: [get_by_position] returns the first file of the group at the
    position, in list order: when several files share the position the
    earliest wins, and it fails exactly when there is none. *)
Theorem get_by_position_first_match (self : FileGroup.t) (position : Position.t)
    (vf : VideoFileInfo.t) :
  FileGroup.get_by_position self position = Ok vf
  <-> exists before after,
        FileGroup.files self = (before ++ vf :: after)%list
        /\ VideoFileInfo.position vf = position
        /\ Forall (fun f => VideoFileInfo.position f <> position) before.
Proof.
  unfold FileGroup.get_by_position.
  induction (FileGroup.files self) as [|file files IH]; cbn [FileGroup.first_at].
  - split; [discriminate|].
    intros (before & after & H & _). destruct before; discriminate.
  - destruct (Position.eqb (VideoFileInfo.position file) position) eqn:E.
    + apply position_eqb_eq in E. split.
      * intros [= <-]. exists [], files. repeat split; [exact E|constructor].
      * intros (before & after & Hfiles & Hp & Hbefore).
        destruct before as [|b before].
        -- cbn in Hfiles. injection Hfiles as -> _. reflexivity.
        -- cbn in Hfiles. injection Hfiles as -> _.
           apply Forall_cons in Hbefore as [Hb _]. contradiction.
    + assert (Hne : VideoFileInfo.position file <> position).
      { intros H. apply position_eqb_eq in H. congruence. }
      rewrite IH. split.
      * intros (before & after & -> & Hp & Hbefore).
        exists (file :: before), after. repeat split; [exact Hp|].
        constructor; assumption.
      * intros (before & after & Hfiles & Hp & Hbefore).
        destruct before as [|b before].
        -- cbn in Hfiles. injection Hfiles as -> _. contradiction.
        -- cbn in Hfiles. injection Hfiles as -> ->.
           apply Forall_cons in Hbefore as [_ Hbefore].
           exists before, after. repeat split; assumption.
Qed.

(** ** Output names *)

Lemma string_length_app (s t : string) :
  String.length (s +:+ t) = (String.length s + String.length t)%nat.
Proof. induction s as [|c s IH]; simpl; [reflexivity|]. rewrite IH. reflexivity. Qed.

Lemma string_app_inj_r (s1 s2 t : string) : s1 +:+ t = s2 +:+ t -> s1 = s2.
Proof.
  intros H.
  assert (Hlen : String.length s1 = String.length s2).
  { apply (f_equal String.length) in H. rewrite !string_length_app in H. lia. }
  revert s2 H Hlen. induction s1 as [|c s1 IH]; intros [|c2 s2] H Hlen;
    try discriminate Hlen; [reflexivity|].
  simpl in H. injection H as -> H. f_equal. apply IH; [exact H|].
  simpl in Hlen. lia.
Qed.

(** X2: the output file is named after the group id alone and no two group
    ids share a name, so jobs of different groups never write the same
    file. *)
Theorem output_file_injective (pk1 pk2 : Z) :
  output_file pk1 = output_file pk2 <-> pk1 = pk2.
Proof.
  split; [|intros ->; reflexivity].
  unfold output_file. intros [= H].
  apply (inj (String.append "")) in H.
  apply string_app_inj_r in H.
  apply (inj pretty) in H. exact H.
Qed.

(** ** The grouper on any directory *)

Lemma filter_perm {A} (f : A -> bool) (l1 l2 : list A) :
  l1 ≡ₚ l2 -> List.filter f l1 ≡ₚ List.filter f l2.
Proof.
  induction 1 as [|x l1 l2 _ IH|x y l|l1 l2 l3 _ IH1 _ IH2]; simpl.
  - reflexivity.
  - destruct (f x); [rewrite IH|exact IH]; reflexivity.
  - destruct (f x), (f y); try reflexivity. apply Permutation_swap.
  - rewrite IH1. exact IH2.
Qed.

Lemma buckets_append_all (key : Z) (vf : VideoFileInfo.t) (groups : buckets) :
  concat (map snd (bucket_append key vf groups)) ≡ₚ vf :: concat (map snd groups).
Proof.
  induction groups as [|[k vfs] groups IH]; simpl; [reflexivity|].
  destruct (k =? key); simpl.
  - rewrite <- app_assoc. cbn [app]. symmetry. apply Permutation_middle.
  - rewrite IH. symmetry. apply Permutation_middle.
Qed.

Lemma buckets_fill_all (vfs : list VideoFileInfo.t) (groups : buckets) :
  concat (map snd (fill vfs groups)) ≡ₚ (concat (map snd groups) ++ vfs)%list.
Proof.
  revert groups. induction vfs as [|vf vfs IH]; intros groups.
  - rewrite app_nil_r. reflexivity.
  - unfold fill in *. simpl. rewrite IH, buckets_append_all.
    cbn [app]. apply Permutation_middle.
Qed.

Lemma group_of_bucket_files (groups : buckets) (fgs : list FileGroup.t) :
  Forall2 group_of_bucket groups fgs -> map FileGroup.files fgs = map snd groups.
Proof.
  induction 1 as [|b fg groups fgs (_ & Hf & _) _ IH]; simpl; [reflexivity|].
  rewrite Hf, IH. reflexivity.
Qed.

Lemma concat_perm {A} (l1 l2 : list (list A)) :
  l1 ≡ₚ l2 -> concat l1 ≡ₚ concat l2.
Proof.
  induction 1 as [|x l1 l2 _ IH|x y l|l1 l2 l3 _ IH1 _ IH2]; simpl.
  - reflexivity.
  - rewrite IH. reflexivity.
  - rewrite !app_assoc. apply Permutation_app_tail, Permutation_app_comm.
  - rewrite IH1. exact IH2.
Qed.

(** X3: whatever the directory holds, the groups [parse_files] returns are
    in strictly ascending order of group id; in particular no id occurs
    twice. *)
Theorem parse_files_strictly_ascending (source : Path.t) (entries : list string)
    (groups : list FileGroup.t) :
  parse_files source entries = Ok groups ->
  StronglySorted Z.lt (map FileGroup.pk groups).
Proof.
  intros Hfiles.
  destruct (parse_files_inv _ _ _ Hfiles) as [vfs Hparse].
  destruct (parse_files_parsed _ _ _ Hparse) as (fgs & Hres & Hall).
  rewrite Hres in Hfiles. injection Hfiles as <-.
  apply sorted_by_pk_strict.
  - apply py_sorted_sorted; [apply pk_ltb_trans_neg|apply pk_ltb_asym].
  - rewrite py_sorted_perm, (group_of_bucket_keys _ _ Hall).
    apply keys_fill_NoDup. constructor.
Qed.

Lemma parse_files_strictly_ascending_witness :
  exists groups,
    parse_files sample_source sample_entries = Ok groups
    /\ StronglySorted Z.lt (map FileGroup.pk groups).
Proof.
  eexists. split; [vm_compute; reflexivity|].
  apply (parse_files_strictly_ascending sample_source sample_entries).
  vm_compute. reflexivity.
Defined.

(** X4: the groups partition the parsed files: put together, the files of
    the returned groups are the records of the discovered files, each once,
    and a group holds exactly the records of its id, in discovery order. *)
Theorem parse_files_partition (source : Path.t) (entries : list string)
    (groups : list FileGroup.t) :
  parse_files source entries = Ok groups ->
  exists vfs,
    parse_all (discovered source entries) = Ok vfs
    /\ concat (map FileGroup.files groups) ≡ₚ vfs
    /\ Forall (fun fg => FileGroup.files fg = with_id (FileGroup.pk fg) vfs) groups.
Proof.
  intros Hfiles.
  destruct (parse_files_inv _ _ _ Hfiles) as [vfs Hparse].
  exists vfs. split; [exact Hparse|]. split.
  - destruct (parse_files_parsed _ _ _ Hparse) as (fgs & Hres & Hall).
    rewrite Hres in Hfiles. injection Hfiles as <-.
    rewrite (concat_perm _ (map FileGroup.files fgs)).
    + rewrite (group_of_bucket_files _ _ Hall), buckets_fill_all. reflexivity.
    + apply Permutation_map, py_sorted_perm.
  - apply List.Forall_forall. intros fg Hfg. apply list_elem_of_In in Hfg.
    apply (parse_files_groups _ _ _ _ Hparse Hfiles fg Hfg).
Qed.

Lemma parse_files_partition_witness :
  exists groups,
    parse_files sample_source sample_entries = Ok groups
    /\ concat (map FileGroup.files groups) ≡ₚ sample_records.
Proof.
  destruct (parse_files sample_source sample_entries) as [groups|e] eqn:E;
    [|vm_compute in E; discriminate E].
  exists groups. split; [reflexivity|].
  destruct (parse_files_partition sample_source sample_entries groups E)
    as (vfs & Hparse & Hperm & _).
  vm_compute in Hparse. injection Hparse as <-. exact Hperm.
Defined.

(** X5: [parse_files] fails only on a parser error: it returns groups
    exactly when every discovered file parses. *)
Theorem parse_files_ok_iff (source : Path.t) (entries : list string) :
  is_ok (parse_files source entries) = true
  <-> Forall (fun file => is_ok (VideoFileInfo.from_path file) = true)
        (Path.glob_mp4 source entries).
Proof.
  split.
  - intros Hok. apply List.Forall_forall. intros file Hin.
    destruct (VideoFileInfo.from_path file) as [vf|e] eqn:E; [reflexivity|].
    assert (Hin' : file ∈ discovered source entries).
    { unfold discovered. rewrite py_sorted_perm. apply list_elem_of_In, Hin. }
    destruct (first_failure_some _ _ _ Hin' E) as (file' & e' & Hfirst & _).
    rewrite (parse_files_first_failure _ _ _ _ Hfirst) in Hok. discriminate.
  - intros Hall.
    pose proof (parse_all_first_failure (discovered source entries)) as H.
    destruct (first_failure (discovered source entries)) as [[file e]|] eqn:Hfirst.
    + exfalso. clear H.
      assert (Hin : exists file e, file ∈ discovered source entries
                                   /\ VideoFileInfo.from_path file = Raise e).
      { clear Hall. induction (discovered source entries) as [|f files IH];
          [discriminate|].
        simpl in Hfirst. destruct (VideoFileInfo.from_path f) as [vf|e0] eqn:Ef.
        - destruct (IH Hfirst) as (f' & e' & Hin & Hf').
          exists f', e'. split; [apply list_elem_of_further, Hin|exact Hf'].
        - exists f, e0. split; [apply list_elem_of_here|exact Ef]. }
      destruct Hin as (f & e0 & Hin & Hf).
      unfold discovered in Hin. rewrite py_sorted_perm in Hin.
      rewrite List.Forall_forall in Hall.
      specialize (Hall f (proj1 (list_elem_of_In _ _) Hin)).
      rewrite Hf in Hall. discriminate.
    + destruct H as [vfs Hparse].
      destruct (parse_files_parsed _ _ _ Hparse) as (fgs & -> & _). reflexivity.
Qed.

(** ** The order of paths *)

Lemma ascii_compare_lt_trans (a b c : ascii) :
  Ascii.compare a b = Lt -> Ascii.compare b c = Lt -> Ascii.compare a c = Lt.
Proof.
  unfold Ascii.compare. rewrite !N.compare_lt_iff. apply N.lt_trans.
Qed.

Lemma string_compare_lt_trans (x y z : string) :
  String.compare x y = Lt -> String.compare y z = Lt -> String.compare x z = Lt.
Proof.
  revert y z. induction x as [|a x IH]; intros [|b y] [|c z]; simpl;
    try discriminate; try reflexivity.
  destruct (Ascii.compare a b) eqn:Eab; try discriminate.
  - apply Ascii.compare_eq_iff in Eab. subst b.
    destruct (Ascii.compare a c); try discriminate; [apply IH|reflexivity].
  - intros _. destruct (Ascii.compare b c) eqn:Ebc; try discriminate.
    + apply Ascii.compare_eq_iff in Ebc. subst c. rewrite Eab. reflexivity.
    + intros _. rewrite (ascii_compare_lt_trans _ _ _ Eab Ebc). reflexivity.
Qed.

Lemma string_ltb_lt (x y : string) : String.ltb x y = true <-> String.compare x y = Lt.
Proof. unfold String.ltb. destruct (String.compare x y); split; congruence. Qed.

Lemma string_ltb_trans (x y z : string) :
  String.ltb x y = true -> String.ltb y z = true -> String.ltb x z = true.
Proof. rewrite !string_ltb_lt. apply string_compare_lt_trans. Qed.

Lemma string_ltb_irrefl (x : string) : String.ltb x x = false.
Proof.
  unfold String.ltb. pose proof (String.compare_antisym x x) as H.
  destruct (String.compare x x); try reflexivity. discriminate H.
Qed.

Lemma string_ltb_total (x y : string) :
  String.ltb x y = false -> String.ltb y x = false -> x = y.
Proof.
  unfold String.ltb. rewrite (String.compare_antisym y x).
  destruct (String.compare x y) eqn:E; simpl; try discriminate.
  intros _ _. apply String.compare_eq_iff, E.
Qed.

Lemma list_ltb_irrefl (l : list string) : Path.list_ltb l l = false.
Proof.
  induction l as [|x l IH]; simpl; [reflexivity|].
  rewrite String.eqb_refl. exact IH.
Qed.

Lemma list_ltb_trans (l1 l2 l3 : list string) :
  Path.list_ltb l1 l2 = true -> Path.list_ltb l2 l3 = true ->
  Path.list_ltb l1 l3 = true.
Proof.
  revert l2 l3. induction l1 as [|x l1 IH]; intros [|y l2] [|z l3]; simpl;
    try discriminate; try reflexivity.
  destruct (String.eqb_spec x y) as [->|Hxy].
  - destruct (String.eqb_spec y z) as [->|Hyz]; [apply IH|trivial].
  - destruct (String.eqb_spec y z) as [->|Hyz].
    + destruct (String.eqb_spec x z); [contradiction|]. intros H _. exact H.
    + intros H1 H2. pose proof (string_ltb_trans _ _ _ H1 H2) as H.
      destruct (String.eqb_spec x z) as [->|_]; [|exact H].
      rewrite string_ltb_irrefl in H. discriminate.
Qed.

Lemma list_ltb_total (l1 l2 : list string) :
  Path.list_ltb l1 l2 = false -> Path.list_ltb l2 l1 = false -> l1 = l2.
Proof.
  revert l2. induction l1 as [|x l1 IH]; intros [|y l2]; simpl;
    try discriminate; [reflexivity|].
  destruct (String.eqb_spec x y) as [->|Hxy].
  - rewrite String.eqb_refl. intros H1 H2. f_equal. apply IH; assumption.
  - destruct (String.eqb_spec y x) as [->|_]; [contradiction|].
    intros H1 H2. contradiction Hxy. apply string_ltb_total; assumption.
Qed.

Lemma path_ltb_asym (p q : Path.t) : Path.ltb p q = true -> Path.ltb q p = false.
Proof.
  unfold Path.ltb. intros H.
  destruct (Path.list_ltb (Path.parts_normcase q) (Path.parts_normcase p)) eqn:E;
    [|reflexivity].
  pose proof (list_ltb_trans _ _ _ H E) as Hpp.
  rewrite list_ltb_irrefl in Hpp. discriminate.
Qed.

Lemma path_ltb_trans_neg (p q r : Path.t) :
  Path.ltb q p = false -> Path.ltb r q = false -> Path.ltb r p = false.
Proof.
  unfold Path.ltb. intros Hqp Hrq.
  destruct (Path.list_ltb (Path.parts_normcase r) (Path.parts_normcase p)) eqn:Hrp;
    [|reflexivity].
  destruct (Path.list_ltb (Path.parts_normcase p) (Path.parts_normcase q)) eqn:Hpq.
  - rewrite (list_ltb_trans _ _ _ Hrp Hpq) in Hrq. discriminate.
  - rewrite (list_ltb_total _ _ Hpq Hqp) in Hrp. congruence.
Qed.

Lemma string_app_cons (c : ascii) (x y : string) :
  String c x +:+ y = String c (x +:+ y).
Proof. reflexivity. Qed.

Lemma string_app_nil (x : string) : EmptyString +:+ x = x.
Proof. reflexivity. Qed.

Lemma split_nonempty (sep : ascii) (s : string) : Str.split sep s <> [].
Proof.
  destruct s as [|c s]; [discriminate|]. cbn [Str.split].
  destruct (Ascii.eqb c sep); [discriminate|].
  destruct (Str.split sep s); discriminate.
Qed.

(** Splitting at a character and joining with it gives the string back. *)
Lemma concat_split (sep : ascii) (s : string) :
  String.concat (String sep EmptyString) (Str.split sep s) = s.
Proof.
  induction s as [|c s IH]; [reflexivity|].
  pose proof (split_nonempty sep s) as Hne.
  cbn [Str.split]. destruct (Ascii.eqb_spec c sep) as [->|Hc].
  - destruct (Str.split sep s) as [|tok toks] eqn:E; [contradiction|].
    cbn [String.concat]. cbn [String.concat] in IH.
    rewrite string_app_nil, string_app_cons, string_app_nil.
    destruct toks; rewrite IH; reflexivity.
  - destruct (Str.split sep s) as [|tok [|tok' toks]] eqn:E; [contradiction|..];
      cbn [String.concat] in *.
    + subst s. reflexivity.
    + rewrite string_app_cons, IH. reflexivity.
Qed.

Lemma string_app_assoc (x y z : string) : (x +:+ y) +:+ z = x +:+ y +:+ z.
Proof.
  induction x as [|c x IH]; [reflexivity|].
  rewrite !string_app_cons. f_equal. exact IH.
Qed.

Lemma concat_snoc (sep : string) (ps : list string) (p a : string) :
  String.concat sep (p :: ps ++ [a])
  = String.concat sep (p :: ps) +:+ sep +:+ a.
Proof.
  revert p. induction ps as [|q ps IH]; intros p; [reflexivity|].
  change (p +:+ sep +:+ String.concat sep (q :: ps ++ [a])
          = (p +:+ sep +:+ String.concat sep (q :: ps)) +:+ sep +:+ a).
  rewrite IH, !string_app_assoc. reflexivity.
Qed.

Lemma str_joinpath_inj (source : Path.t) (a b : string) :
  Path.str (Path.joinpath source a) = Path.str (Path.joinpath source b) -> a = b.
Proof.
  unfold Path.str, Path.joinpath. cbn [Path.anchored Path.parts].
  destruct (Path.anchored source), (Path.parts source) as [|p ps]; cbn [app].
  - intros [= H]. exact H.
  - rewrite !concat_snoc. intros [= H].
    apply (inj (String.append _)), (inj (String.append "/")) in H. exact H.
  - trivial.
  - rewrite !concat_snoc. intros H.
    apply (inj (String.append _)), (inj (String.append "/")) in H. exact H.
Qed.

Lemma path_ltb_children_total (source : Path.t) (a b : string) :
  Path.ltb (Path.joinpath source a) (Path.joinpath source b) = false ->
  Path.ltb (Path.joinpath source b) (Path.joinpath source a) = false ->
  a = b.
Proof.
  unfold Path.ltb, Path.parts_normcase. intros H1 H2.
  pose proof (list_ltb_total _ _ H1 H2) as H.
  apply (f_equal (String.concat "/")) in H.
  rewrite !concat_split in H. apply (str_joinpath_inj source), H.
Qed.

(** Sorting the chosen entries of a directory gives the same list whatever
    order the directory lists them in. *)
Lemma sorted_children_perm (source : Path.t) (f : string -> bool)
    (entries entries' : list string) :
  entries ≡ₚ entries' ->
  py_sorted Path.ltb (map (Path.joinpath source) (List.filter f entries))
  = py_sorted Path.ltb (map (Path.joinpath source) (List.filter f entries')).
Proof.
  intros Hperm.
  apply (StronglySorted_unique_strong (not_after Path.ltb)).
  - intros x1 x2 Hx1 Hx2 H12 H21. unfold not_after in *.
    rewrite py_sorted_perm in Hx1, Hx2.
    apply list_elem_of_fmap in Hx1 as (a & -> & _).
    apply list_elem_of_fmap in Hx2 as (b & -> & _).
    f_equal. apply (path_ltb_children_total source); assumption.
  - apply py_sorted_sorted; [apply path_ltb_trans_neg|apply path_ltb_asym].
  - apply py_sorted_sorted; [apply path_ltb_trans_neg|apply path_ltb_asym].
  - rewrite !py_sorted_perm. apply Permutation_map, filter_perm, Hperm.
Qed.

(** X6: the result of [parse_files] does not depend on the order in which
    the file system lists the directory: two listings of the same entries
    give the same groups, with the same files in the same order. *)
Theorem parse_files_listing_order (source : Path.t) (entries entries' : list string) :
  entries ≡ₚ entries' ->
  parse_files source entries = parse_files source entries'.
Proof.
  intros Hperm. unfold parse_files, Path.glob_mp4.
  rewrite (sorted_children_perm source Path.glob_match_mp4 _ _ Hperm).
  reflexivity.
Qed.

Lemma parse_files_listing_order_witness :
  parse_files sample_source sample_entries
  = parse_files sample_source (List.rev sample_entries).
Proof.
  apply (parse_files_listing_order sample_source sample_entries
           (List.rev sample_entries)).
  apply Permutation_rev.
Defined.

(** ** What the jobs leave alone *)

Lemma output_key_not_out (group : FileGroup.t) : output_key group <> "out".
Proof. unfold output_key, output_file, Path.str. cbn. discriminate. Qed.

Lemma apply_run_frame (out key : string) (run : engine_run) (w : fs) :
  key <> out -> apply_run out run w !! key = w !! key.
Proof.
  intros Hne. unfold apply_run, write_file.
  destruct (written run) as [content|]; [|reflexivity].
  destruct (w !! out) as [[|c]|]; [reflexivity| |];
    apply lookup_insert_ne; congruence.
Qed.

Lemma ensure_out_frame (key : string) (w : fs) :
  key <> "out" -> ensure_out w !! key = w !! key.
Proof.
  intros Hne. unfold ensure_out.
  destruct (w !! "out"); [reflexivity|]. apply lookup_insert_ne. congruence.
Qed.

Lemma ensure_out_keeps (w : fs) (n : node) :
  w !! "out" = Some n -> ensure_out w = w.
Proof. intros H. unfold ensure_out. rewrite H. reflexivity. Qed.

Section JobFrame.
Context (ffmpeg_run : fs -> string -> string -> string -> string -> engine_run).

Lemma stitch_group_untouched (group : FileGroup.t) (w : fs) :
  (forall key, key <> "out" -> key <> output_key group ->
     (stitch_group ffmpeg_run group w).1 !! key = w !! key)
  /\ (forall n, w !! "out" = Some n ->
        (stitch_group ffmpeg_run group w).1 !! "out" = Some n).
Proof.
  unfold stitch_group.
  destruct (FileGroup.get_by_position group Position.FRONT) as [front|e];
    [|split; [reflexivity|trivial]].
  destruct (FileGroup.get_by_position group Position.INTERNAL) as [internal|e];
    [|split; [reflexivity|trivial]].
  destruct (FileGroup.get_by_position group Position.REAR) as [rear|e];
    [|split; [reflexivity|trivial]].
  fold (output_key group).
  match goal with |- context [failure ?r] => set (run := r) end.
  assert (Hw : forall (o : result Path.t) (o' : exn -> result Path.t),
    (match failure run with
     | Some e => (apply_run (output_key group) run (ensure_out w), o' e)
     | None => (apply_run (output_key group) run (ensure_out w), o)
     end).1 = apply_run (output_key group) run (ensure_out w)).
  { intros o o'. destruct (failure run); reflexivity. }
  rewrite Hw. split.
  - intros key Hout Hkey. rewrite apply_run_frame by exact Hkey.
    apply ensure_out_frame, Hout.
  - intros n Hn. rewrite apply_run_frame.
    + rewrite (ensure_out_keeps w n Hn). exact Hn.
    + intros E. symmetry in E. exact (output_key_not_out group E).
Qed.

(** X7: a stitch job changes nothing on the disk except the directory
    [out] and its own output file, and an entry already at [out] stays as
    it is. *)
Theorem stitch_group_frame (group : FileGroup.t) (w : fs) :
  (forall key, key <> "out" -> key <> output_key group ->
     (stitch_group ffmpeg_run group w).1 !! key = w !! key)
  /\ (forall n, w !! "out" = Some n ->
        (stitch_group ffmpeg_run group w).1 !! "out" = Some n).
Proof. apply stitch_group_untouched. Qed.

End JobFrame.

Lemma stitch_group_frame_witness :
  (stitch_group engine_ok (full_group 417) sample_disk).1 !! "notes.txt"
  = Some (File "keep")
  /\ (stitch_group engine_ok (full_group 417) sample_disk).1 !! "out/output_417.mp4"
     = Some (File "stitched").
Proof.
  split; [|vm_compute; reflexivity].
  destruct (stitch_group_frame engine_ok (full_group 417) sample_disk) as [H _].
  rewrite H; [vm_compute; reflexivity|discriminate|vm_compute; discriminate].
Defined.

(** ** The whole batch *)

Section BatchFacts.
Context (ffmpeg_run : fs -> string -> string -> string -> string -> engine_run).
Context (max_workers : nat).

Lemma run_pool_stalled (schedule : list nat) (fuel : nat) (p : pool) (k : nat) :
  k = choose (hd 0%nat schedule) (dispatch max_workers (running p) (queue p)).1 ->
  (dispatch max_workers (running p) (queue p)).1 !! k = None ->
  run_pool ffmpeg_run max_workers schedule (S fuel) p
  = mk_pool (dispatch max_workers (running p) (queue p)).2
      (dispatch max_workers (running p) (queue p)).1
      (futures p) (completion_order p) (world p).
Proof.
  intros -> Hk. cbn [run_pool].
  destruct (dispatch max_workers (running p) (queue p)) as [running' queue'].
  cbn [fst snd] in *. rewrite Hk. reflexivity.
Qed.

Lemma run_pool_world_frame (key : string) (schedule : list nat) (fuel : nat)
    (p : pool) :
  key <> "out" ->
  Forall (fun job => key <> output_key job.2) (pending p) ->
  world (run_pool ffmpeg_run max_workers schedule fuel p) !! key = world p !! key.
Proof.
  intros Hout. revert schedule p.
  induction fuel as [|fuel IH]; intros schedule p Hkeys; [reflexivity|].
  set (k := choose (hd 0%nat schedule) (dispatch max_workers (running p) (queue p)).1).
  destruct ((dispatch max_workers (running p) (queue p)).1 !! k)
    as [[j group]|] eqn:Hk.
  - rewrite (run_pool_round ffmpeg_run max_workers schedule fuel p k j group eq_refl Hk).
    pose proof (pending_after_round max_workers p k j group Hk) as Hperm.
    rewrite Hperm in Hkeys. apply Forall_cons in Hkeys as [Hj Hkeys].
    rewrite IH by exact Hkeys. cbn [world].
    apply (stitch_group_untouched ffmpeg_run group (world p)); assumption.
  - rewrite (run_pool_stalled schedule fuel p k eq_refl Hk). reflexivity.
Qed.

Lemma run_pool_completion_order (schedule : list nat) (fuel : nat) (p : pool) :
  (0 < max_workers)%nat ->
  (length (pending p) <= fuel)%nat ->
  completion_order (run_pool ffmpeg_run max_workers schedule fuel p)
  ≡ₚ (completion_order p ++ map fst (pending p))%list.
Proof.
  intros Hmw. revert schedule p.
  induction fuel as [|fuel IH]; intros schedule p Hlen.
  - destruct (pending p); [|simpl in Hlen; lia]. rewrite app_nil_r. reflexivity.
  - destruct (pending p) as [|job rest] eqn:Hpending.
    + cbn [run_pool]. unfold pending in Hpending.
      apply app_eq_nil in Hpending as [Hr Hq]. rewrite Hr, Hq. cbn.
      rewrite app_nil_r. reflexivity.
    + set (k := choose (hd 0%nat schedule) (dispatch max_workers (running p) (queue p)).1).
      assert (Hne : (dispatch max_workers (running p) (queue p)).1 <> []).
      { apply dispatch_nonempty; [exact Hmw|]. fold (pending p).
        rewrite Hpending. discriminate. }
      assert (Hlt : (k < length (dispatch max_workers (running p) (queue p)).1)%nat).
      { subst k. unfold choose. apply Nat.mod_upper_bound.
        destruct (dispatch max_workers (running p) (queue p)).1;
          [contradiction|discriminate]. }
      apply lookup_lt_is_Some_2 in Hlt as [[j gj] Hk].
      rewrite (run_pool_round ffmpeg_run max_workers schedule fuel p k j gj eq_refl Hk).
      pose proof (pending_after_round max_workers p k j gj Hk) as Hperm.
      rewrite <- Hpending, Hperm. rewrite <- Hpending, Hperm in Hlen.
      rewrite IH by (unfold pending; cbn [running queue length] in *; lia).
      unfold pending at 1. cbn [completion_order running queue map fst].
      rewrite <- app_assoc. reflexivity.
Qed.

End BatchFacts.

Section BatchProperties.
Context (ffmpeg_run : fs -> string -> string -> string -> string -> engine_run).

Lemma submitted_groups (P : FileGroup.t -> Prop) (groups : list FileGroup.t)
    (start : nat) :
  Forall P groups ->
  Forall (fun job => P job.2)
    (map swap_job (zip groups (seq start (length groups)))).
Proof.
  intros H. revert start. induction H as [|g groups Hg _ IH]; intros start; cbn.
  - constructor.
  - constructor; [exact Hg|apply IH].
Qed.

Lemma stitch_all_untouched (groups : list FileGroup.t) (max_workers : Z)
    (schedule : list nat) (w : fs) (key : string) :
  key <> "out" ->
  Forall (fun group => key <> output_key group) groups ->
  (stitch_all ffmpeg_run groups max_workers schedule w).1 !! key = w !! key.
Proof.
  intros Hout Hkeys. unfold stitch_all.
  destruct (max_workers <=? 0); [reflexivity|].
  cbn [fst]. unfold pool_after.
  rewrite run_pool_world_frame; [reflexivity|exact Hout|].
  unfold pending, submit_all. cbn [running queue app].
  apply (submitted_groups (fun g => key <> output_key g)), Hkeys.
Qed.

(** X8: whatever the schedule and the outcome of the jobs, [stitch_all]
    changes nothing on the disk except the directory [out] and the output
    files of the groups it was given. *)
Theorem stitch_all_frame (groups : list FileGroup.t) (max_workers : Z)
    (schedule : list nat) (w : fs) (key : string) :
  key <> "out" ->
  Forall (fun group => key <> output_key group) groups ->
  (stitch_all ffmpeg_run groups max_workers schedule w).1 !! key = w !! key.
Proof. apply stitch_all_untouched. Qed.

(** X9: with at least one worker, every submitted job has run, each exactly
    once, by the time [stitch_all] starts to yield; a failing job does not
    keep the later ones from running. *)
Theorem stitch_all_runs_every_job (groups : list FileGroup.t) (max_workers : nat)
    (schedule : list nat) (w : fs) :
  (0 < max_workers)%nat ->
  completion_order (pool_after ffmpeg_run groups max_workers schedule w)
  ≡ₚ seq 0 (length groups).
Proof.
  intros Hmw. unfold pool_after.
  rewrite run_pool_completion_order; [|exact Hmw|].
  - unfold pending, submit_all. cbn [completion_order running queue app].
    rewrite submitted_jobs. reflexivity.
  - unfold pending, submit_all. cbn [running queue app].
    rewrite <- (length_map fst), submitted_jobs, length_seq. lia.
Qed.

Lemma first_at_complete (position : Position.t) (files : list VideoFileInfo.t) :
  Exists (fun vf => VideoFileInfo.position vf = position) files ->
  exists vf, FileGroup.first_at position files = Ok vf.
Proof.
  intros H. apply List.Exists_exists in H as (vf & Hin & Hp).
  destruct (first_at_found position files vf Hin Hp) as (vf' & Hvf' & _).
  exists vf'. exact Hvf'.
Qed.

Lemma stitch_group_succeeds (group : FileGroup.t) (w : fs) :
  complete group -> never_fails ffmpeg_run ->
  (stitch_group ffmpeg_run group w).2 = Ok (output_file (FileGroup.pk group)).
Proof.
  intros Hc Hok. unfold stitch_group, FileGroup.get_by_position.
  destruct (first_at_complete _ _ (Hc Position.FRONT)) as [front ->].
  destruct (first_at_complete _ _ (Hc Position.INTERNAL)) as [internal ->].
  destruct (first_at_complete _ _ (Hc Position.REAR)) as [rear ->].
  rewrite Hok. reflexivity.
Qed.

Lemma stitch_all_all_yielded (groups : list FileGroup.t) (max_workers : Z)
    (schedule : list nat) (w : fs) :
  0 < max_workers ->
  Forall complete groups ->
  never_fails ffmpeg_run ->
  (stitch_all ffmpeg_run groups max_workers schedule w).2
  = mk_trace (map stitched groups) [] Exhausted.
Proof.
  intros Hmw Hc Hok. unfold stitch_all.
  destruct (max_workers <=? 0) eqn:E; [apply Z.leb_le in E; lia|].
  cbn [snd].
  set (results := futures (pool_after ffmpeg_run groups (Z.to_nat max_workers) schedule w)).
  assert (Hdone : forall (i : nat) (group : FileGroup.t), groups !! i = Some group ->
            results !! i = Some (Ok (output_file (FileGroup.pk group)))).
  { intros i group Hi.
    destruct (pool_after_complete ffmpeg_run groups (Z.to_nat max_workers)
                schedule w i group) as [w' Hw']; [lia|exact Hi|].
    subst results. rewrite Hw'. f_equal. apply stitch_group_succeeds; [|exact Hok].
    rewrite List.Forall_forall in Hc. apply Hc.
    apply list_elem_of_In, list_elem_of_lookup. exists i. exact Hi. }
  clearbody results. unfold submit_all.
  assert (Hgen : forall start : nat,
            (forall (i : nat) (group : FileGroup.t), groups !! i = Some group ->
               results !! (start + i)%nat = Some (Ok (output_file (FileGroup.pk group)))) ->
            drain results (zip groups (seq start (length groups)))
            = mk_trace (map stitched groups) [] Exhausted).
  { clear Hdone Hc. induction groups as [|g groups IH]; intros start H; [reflexivity|].
    cbn [length seq zip zip_with drain].
    pose proof (H 0%nat g eq_refl) as H0. rewrite Nat.add_0_r in H0. rewrite H0.
    rewrite (IH (S start)); [reflexivity|].
    intros i group Hi. replace (S start + i)%nat with (start + S i)%nat by lia.
    apply H. exact Hi. }
  apply Hgen. intros i group Hi. apply Hdone, Hi.
Qed.

(** X10: when every group has a file at each position and an id that can
    be formatted, the engine never fails, and the jobs cannot meet on the
    creation of [out] (one worker, or [out] already in place), [stitch_all]
    yields every group with its output file, in the order of the list,
    prints nothing and ends normally, whatever the schedule. *)
Theorem stitch_all_succeeds (groups : list FileGroup.t) (max_workers : Z)
    (schedule : list nat) (w : fs) :
  0 < max_workers ->
  out_settled max_workers w ->
  Forall complete groups ->
  Forall (fun group => formattable (FileGroup.pk group)) groups ->
  never_fails ffmpeg_run ->
  (stitch_all ffmpeg_run groups max_workers schedule w).2
  = mk_trace (map stitched groups) [] Exhausted.
Proof.
  intros Hmw _ Hc _ Hok. apply stitch_all_all_yielded; assumption.
Qed.

End BatchProperties.

Lemma stitch_all_frame_witness :
  (stitch_all engine_ok three_groups 2 second_first sample_disk).1 !! "notes.txt"
  = Some (File "keep").
Proof.
  rewrite (stitch_all_frame engine_ok three_groups 2 second_first sample_disk
             "notes.txt").
  - vm_compute. reflexivity.
  - discriminate.
  - repeat constructor; vm_compute; discriminate.
Defined.

Lemma stitch_all_runs_every_job_witness :
  completion_order (pool_after engine_ok three_groups_one_broken 2 second_first ∅)
  ≡ₚ [0%nat; 1%nat; 2%nat].
Proof.
  apply (stitch_all_runs_every_job engine_ok three_groups_one_broken 2
           second_first ∅).
  lia.
Defined.

Lemma stitch_all_succeeds_witness :
  (stitch_all engine_ok three_groups 2 second_first disk_with_out).2
  = mk_trace (map stitched three_groups) [] Exhausted.
Proof.
  apply (stitch_all_succeeds engine_ok three_groups 2 second_first disk_with_out).
  - lia.
  - right. eexists. vm_compute. reflexivity.
  - assert (Hc : forall gid, complete (full_group gid)).
    { intros gid []; unfold full_group; cbn [FileGroup.files];
        first [apply Exists_cons_hd; reflexivity
              |apply Exists_cons_tl, Exists_cons_hd; reflexivity
              |apply Exists_cons_tl, Exists_cons_tl, Exists_cons_hd; reflexivity]. }
    unfold three_groups. repeat (constructor; [apply Hc|]). constructor.
  - unfold three_groups.
    repeat (constructor; [unfold formattable; vm_compute; reflexivity|]).
    constructor.
  - intros ? ? ? ? ?. reflexivity.
Defined.

(** ** The concatenator and the disk *)

Section CombineFacts.
Context (cwd : Path.t) (concat_run : fs -> string -> string -> engine_run).

(** X11: [combine_clips] changes nothing on the disk except the manifest
    [file_list.txt] and the final output file; and when [file_list.txt] is
    a directory it raises before the engine is invoked, reports nothing and
    leaves the disk as it was. *)
Theorem combine_clips_frame (output_files : list Path.t)
    (final_output_file : string) (w : fs) :
  (forall key, key <> Path.str temp_file_list -> key <> final_output_file ->
     disk (combine_clips cwd concat_run output_files final_output_file w) !! key
     = w !! key)
  /\ (w !! Path.str temp_file_list = Some Dir ->
      combine_clips cwd concat_run output_files final_output_file w
      = mk_combined w (Raise (OSError "Is a directory")) []).
Proof.
  unfold combine_clips, create_file_list.
  destruct (w !! Path.str temp_file_list) as [[|c]|] eqn:E.
  - split; [reflexivity|reflexivity].
  - split; [|discriminate]. intros key Hm Ho.
    match goal with |- context [failure ?r] => set (run := r) end.
    match goal with |- context [unlink _ ?w'] => set (w2 := w') end.
    assert (Hw2 : w2 !! key = w !! key).
    { subst w2. rewrite apply_run_frame by exact Ho.
      apply lookup_insert_ne. congruence. }
    assert (Hunlink : (unlink temp_file_list w2).1 !! key = w !! key).
    { unfold unlink. destruct (w2 !! Path.str temp_file_list) as [[|c']|];
        cbn [fst]; [exact Hw2| |exact Hw2].
      rewrite lookup_delete_ne by congruence. exact Hw2. }
    destruct (failure run); destruct (unlink temp_file_list w2) as [w3 [[]|e3]];
      cbn [disk fst] in *; exact Hunlink.
  - split; [|discriminate]. intros key Hm Ho.
    match goal with |- context [failure ?r] => set (run := r) end.
    match goal with |- context [unlink _ ?w'] => set (w2 := w') end.
    assert (Hw2 : w2 !! key = w !! key).
    { subst w2. rewrite apply_run_frame by exact Ho.
      apply lookup_insert_ne. congruence. }
    assert (Hunlink : (unlink temp_file_list w2).1 !! key = w !! key).
    { unfold unlink. destruct (w2 !! Path.str temp_file_list) as [[|c']|];
        cbn [fst]; [exact Hw2| |exact Hw2].
      rewrite lookup_delete_ne by congruence. exact Hw2. }
    destruct (failure run); destruct (unlink temp_file_list w2) as [w3 [[]|e3]];
      cbn [disk fst] in *; exact Hunlink.
Qed.

End CombineFacts.

Lemma combine_clips_frame_witness :
  disk (combine_clips sample_cwd concat_failing sample_outputs "out.mp4" sample_disk)
    !! "notes.txt" = Some (File "keep").
Proof.
  destruct (combine_clips_frame sample_cwd concat_failing sample_outputs
              "out.mp4" sample_disk) as [H _].
  rewrite H; [vm_compute; reflexivity|vm_compute; discriminate|discriminate].
Defined.

(** ** The manifest *)





Section ManifestFacts.
Context (cwd : Path.t).



End ManifestFacts.


(** ** Group ids can be formatted *)

Lemma span_digits_range (s : string) :
  Forall (fun d => 0 <= d <= 9) (Py.span_digits s).1.
Proof.
  induction s as [|c s IH]; cbn [Py.span_digits]; [constructor|].
  destruct (Str.is_digit c) eqn:E; [|constructor].
  destruct (Py.span_digits s) as [ds rest]. cbn [fst] in *.
  constructor; [apply digit_value_range, E|exact IH].
Qed.

Lemma digits_value_bound (ds : list Z) (acc k : Z) :
  Forall (fun d => 0 <= d <= 9) ds -> 0 <= k -> 0 <= acc < 10 ^ k ->
  0 <= fold_left (fun acc d => 10 * acc + d) ds acc < 10 ^ (k + Z.of_nat (length ds)).
Proof.
  intros Hds. revert acc k. induction Hds as [|d ds Hd _ IH]; intros acc k Hk Hacc.
  - cbn [fold_left length]. rewrite Z.add_0_r. exact Hacc.
  - cbn [fold_left length].
    replace (k + Z.of_nat (S (length ds))) with ((k + 1) + Z.of_nat (length ds)) by lia.
    apply IH; [lia|]. rewrite Z.pow_add_r by lia. change (10 ^ 1) with 10. lia.
Qed.

Lemma int_formattable (s : string) (n : Z) : Py.int s = Ok n -> formattable n.
Proof.
  unfold Py.int, formattable.
  destruct (Py.strip_sign (Py.lstrip s)) as [negative body].
  pose proof (span_digits_range body) as Hrange.
  destruct (Py.span_digits body) as [ds rest]. cbn [fst] in Hrange.
  destruct ds as [|d ds]; [discriminate|].
  destruct (Py.int_max_str_digits <? length (d :: ds))%nat eqn:El; [discriminate|].
  destruct (Py.all_space rest); [|discriminate].
  apply Nat.ltb_ge in El. intros [= <-].
  pose proof (digits_value_bound (d :: ds) 0 0 Hrange) as Hb.
  unfold Py.digits_value. rewrite Z.add_0_l in Hb.
  assert (Hpow : 10 ^ Z.of_nat (length (d :: ds))
                 <= 10 ^ Z.of_nat Py.int_max_str_digits)
    by (apply Z.pow_le_mono_r; lia).
  assert (H0 : 0 <= 0 < 10 ^ 0) by (change (10 ^ 0) with 1; lia).
  specialize (Hb (Z.le_refl 0) H0).
  destruct negative; lia.
Qed.

Lemma from_path_formattable (path : Path.t) (r : VideoFileInfo.t) :
  VideoFileInfo.from_path path = Ok r -> formattable (VideoFileInfo.id r).
Proof.
  unfold VideoFileInfo.from_path.
  destruct (Str.split "_" (Path.stem path))
    as [|date [|time [|gid [|type [|position [|? ?]]]]]];
    try (destruct (_ <? _)%nat; discriminate).
  destruct (Py.int gid) as [pk|e] eqn:E; cbn [mbind result_bind]; [|discriminate].
  destruct (Py.strptime_Ymd date); cbn [mbind result_bind]; [|discriminate].
  destruct (Py.strptime_HMS time); cbn [mbind result_bind]; [|discriminate].
  destruct (VideoType.of_value type); cbn [mbind result_bind]; [|discriminate].
  destruct (Position.of_value position); cbn [mbind result_bind]; [|discriminate].
  intros [= <-]. cbn. apply (int_formattable gid), E.
Qed.

Lemma parse_all_formattable (files : list Path.t) (vfs : list VideoFileInfo.t) :
  parse_all files = Ok vfs ->
  Forall (fun vf => formattable (VideoFileInfo.id vf)) vfs.
Proof.
  revert vfs. induction files as [|file files IH]; intros vfs; simpl.
  - intros [= <-]. constructor.
  - destruct (VideoFileInfo.from_path file) as [vf|e] eqn:E; simpl; [|discriminate].
    destruct (parse_all files) as [vfs'|e]; simpl; [|discriminate].
    intros [= <-]. constructor; [apply (from_path_formattable file), E|].
    apply IH. reflexivity.
Qed.

Lemma parse_files_ids_formattable (source : Path.t) (entries : list string)
    (groups : list FileGroup.t) :
  parse_files source entries = Ok groups ->
  Forall (fun group => formattable (FileGroup.pk group)) groups.
Proof.
  intros Hfiles.
  destruct (parse_files_inv _ _ _ Hfiles) as [vfs Hparse].
  pose proof (parse_all_formattable _ _ Hparse) as Hvfs.
  apply List.Forall_forall. intros fg Hfg. apply list_elem_of_In in Hfg.
  destruct (parse_files_groups _ _ _ _ Hparse Hfiles fg Hfg) as (_ & Hk & _).
  apply list_elem_of_fmap in Hk as (vf & -> & Hvf).
  rewrite List.Forall_forall in Hvfs. apply Hvfs, list_elem_of_In, Hvf.
Qed.

(** X19: every group id that [parse_files] returns has at most as many
    digits as the interpreter converts, so the name of the group's output
    file can always be formatted. *)
Theorem parse_files_formattable (source : Path.t) (entries : list string)
    (groups : list FileGroup.t) :
  parse_files source entries = Ok groups ->
  Forall (fun group => formattable (FileGroup.pk group)) groups.
Proof. apply parse_files_ids_formattable. Qed.

Lemma parse_files_formattable_witness :
  exists groups,
    parse_files sample_source sample_entries = Ok groups
    /\ Forall (fun group => formattable (FileGroup.pk group)) groups.
Proof.
  eexists. split; [vm_compute; reflexivity|].
  apply (parse_files_formattable sample_source sample_entries).
  vm_compute. reflexivity.
Defined.

(** ** The commands *)

Lemma mkdir_frame (p : Path.t) (w : fs) (key : string) :
  key <> Path.str p -> (mkdir p w).1 !! key = w !! key.
Proof.
  intros Hne. unfold mkdir.
  destruct (w !! Path.str p); [reflexivity|].
  destruct (path_is_dir (parent p) w); cbn [fst].
  - apply lookup_insert_ne. congruence.
  - destruct (path_exists (parent p) w); reflexivity.
Qed.

Lemma ensure_dir_frame (p : Path.t) (w : fs) (key : string) :
  key <> Path.str p -> (ensure_dir p w).1 !! key = w !! key.
Proof.
  intros Hne. unfold ensure_dir.
  destruct (path_exists p w); [reflexivity|]. apply mkdir_frame, Hne.
Qed.

Lemma check_source_not_dir (src : Path.t) (w : fs) :
  path_is_dir src w = false -> exists message, check_source src w = Some message.
Proof.
  intros H. unfold check_source.
  destruct (path_exists src w); cbn [negb]; [|eexists; reflexivity].
  rewrite H. eexists; reflexivity.
Qed.

Lemma check_source_dir (src : Path.t) (w : fs) :
  path_is_dir src w = true -> check_source src w = None.
Proof.
  intros H. unfold check_source.
  assert (He : path_exists src w = true).
  { unfold path_is_dir, path_exists in *.
    destruct (Path.parts src); [reflexivity|].
    destruct (w !! Path.str src) as [[|c]|]; try discriminate; reflexivity. }
  rewrite He, H. reflexivity.
Qed.

Section CommandFacts.
Context (ffmpeg_run : fs -> string -> string -> string -> string -> engine_run).
Context (concat_run : fs -> string -> string -> engine_run).
Context (cwd : Path.t).

(** X13: when the source path is missing or is not a directory, both
    commands stop at their assertion: nothing is printed and the disk is
    left as it was; no destination is created, no file is parsed and no
    engine is run. *)
Theorem commands_reject_bad_source (parallelism : Z) (src dst : Path.t)
    (out : string) (entries : list string) (schedule : list nat) (w : fs) :
  path_is_dir src w = false ->
  exists message,
    stitch ffmpeg_run parallelism src dst entries schedule w
    = mk_cli w [] (AssertionError message)
    /\ combine concat_run cwd src out entries w
       = mk_cli w [] (AssertionError message).
Proof.
  intros H. destruct (check_source_not_dir src w H) as [message Hm].
  exists message. unfold stitch, combine. rewrite Hm. split; reflexivity.
Qed.


(** X15: a single file name that does not parse stops the [stitch]
    command before any job runs: the command ends with an exception, prints
    nothing, and changes nothing on the disk except that [dst] may have
    been created; with [dst] in place the exception is the parser's error
    for the first failing file. *)
Theorem stitch_stops_at_bad_name (parallelism : Z) (src dst : Path.t)
    (entries : list string) (schedule : list nat) (w : fs)
    (file : Path.t) (e : exn) :
  path_is_dir src w = true ->
  first_failure (discovered src entries) = Some (file, e) ->
  let r := stitch ffmpeg_run parallelism src dst entries schedule w in
  cli_printed r = []
  /\ (exists e', cli_exited r = Uncaught e')
  /\ ((ensure_dir dst w).2 = Ok tt -> cli_exited r = Uncaught e)
  /\ (forall key, key <> Path.str dst -> cli_disk r !! key = w !! key).
Proof.
  intros Hsrc Hfirst. cbv zeta. unfold stitch.
  rewrite (check_source_dir src w Hsrc).
  rewrite (parse_files_first_failure _ _ _ _ Hfirst).
  pose proof (ensure_dir_frame dst w) as Hd.
  destruct (ensure_dir dst w) as [w1 [[]|e1]]; cbn [fst snd cli_printed cli_exited cli_disk] in *.
  - repeat split; [eexists; reflexivity|exact Hd].
  - repeat split; [eexists; reflexivity|discriminate|exact Hd].
Qed.

(** X16: from a source directory whose files form complete groups, with
    the destination in place, an engine that does not fail, at least one
    worker, and jobs that cannot meet on the creation of [out] (one worker,
    or [out] in place once the destination is), the [stitch] command
    returns normally after printing one line per group, in ascending order
    of group id, each with the output file [out/output_<id>.mp4]; the ids
    that [parse_files] returns can always be formatted. *)
Theorem stitch_succeeds (parallelism : Z) (src dst : Path.t)
    (entries : list string) (schedule : list nat) (w : fs)
    (groups : list FileGroup.t) :
  path_is_dir src w = true ->
  (ensure_dir dst w).2 = Ok tt ->
  out_settled parallelism (ensure_dir dst w).1 ->
  parse_files src entries = Ok groups ->
  Forall complete groups ->
  never_fails ffmpeg_run ->
  0 < parallelism ->
  let r := stitch ffmpeg_run parallelism src dst entries schedule w in
  cli_exited r = Returned
  /\ cli_printed r
     = map (fun g => StitchedGroup g (output_file (FileGroup.pk g))) groups
  /\ StronglySorted Z.lt (map FileGroup.pk groups)
  /\ Forall (fun g => formattable (FileGroup.pk g)) groups.
Proof.
  intros Hsrc Hdst _ Hparse Hc Hok Hp. cbv zeta.
  pose proof (parse_files_ids_formattable _ _ _ Hparse) as Hfmt.
  unfold stitch.
  rewrite (check_source_dir src w Hsrc), Hparse.
  destruct (ensure_dir dst w) as [w1 [[]|e1]]; [|discriminate].
  pose proof (stitch_all_all_yielded ffmpeg_run groups parallelism schedule w1 Hp Hc Hok)
    as Ht.
  destruct (stitch_all ffmpeg_run groups parallelism schedule w1) as [w2 t].
  cbn [snd] in Ht. subst t. cbn [cli_exited cli_printed yielded printed ended].
  split; [reflexivity|]. split; [|split; [|exact Hfmt]].
  - rewrite app_nil_r, map_map. reflexivity.
  - destruct (parse_files_inv _ _ _ Hparse) as [vfs Hvfs].
    destruct (parse_files_parsed _ _ _ Hvfs) as (fgs & Hres & Hall).
    rewrite Hres in Hparse. injection Hparse as <-.
    apply sorted_by_pk_strict.
    + apply py_sorted_sorted; [apply pk_ltb_trans_neg|apply pk_ltb_asym].
    + rewrite py_sorted_perm, (group_of_bucket_keys _ _ Hall).
      apply keys_fill_NoDup. constructor.
Qed.

(** X17: the [combine] command does not depend on the order in which the
    file system lists the source directory: the files go to the manifest
    in the order of their paths. *)
Theorem combine_listing_order (src : Path.t) (dst : string)
    (entries entries' : list string) (w : fs) :
  entries ≡ₚ entries' ->
  combine concat_run cwd src dst entries w
  = combine concat_run cwd src dst entries' w.
Proof.
  intros Hperm. unfold combine.
  rewrite (sorted_children_perm src glob_match_mp4_exact _ _ Hperm).
  reflexivity.
Qed.

End CommandFacts.

Lemma completeb_sound (groups : list FileGroup.t) :
  forallb completeb groups = true -> Forall complete groups.
Proof.
  intros H. apply List.Forall_forall. intros g Hg.
  rewrite forallb_forall in H. specialize (H g Hg).
  unfold completeb in H. rewrite forallb_forall in H.
  intros position.
  assert (Hin : In position [Position.FRONT; Position.INTERNAL; Position.REAR])
    by (destruct position; simpl; tauto).
  apply H, existsb_exists in Hin as (vf & Hvf & E).
  apply List.Exists_exists. exists vf. split; [exact Hvf|].
  apply position_eqb_eq, E.
Qed.

Lemma commands_reject_bad_source_witness :
  exists message,
    stitch engine_ok 2 sample_note sample_dst [] [] sample_disk
    = mk_cli sample_disk [] (AssertionError message)
    /\ combine concat_ok sample_cwd sample_note "out.mp4" [] sample_disk
       = mk_cli sample_disk [] (AssertionError message).
Proof.
  apply (commands_reject_bad_source engine_ok concat_ok sample_cwd 2
           sample_note sample_dst "out.mp4" [] [] sample_disk).
  vm_compute. reflexivity.
Defined.


Lemma stitch_stops_at_bad_name_witness :
  let r := stitch engine_ok 2 sample_source sample_dst broken_entries
             second_first sample_disk in
  cli_printed r = []
  /\ cli_exited r = Uncaught (ValueError (NotAValidMember "X" "VideoType"))
  /\ cli_disk r !! "out" = None.
Proof.
  destruct (stitch_stops_at_bad_name engine_ok 2 sample_source sample_dst
              broken_entries second_first sample_disk
              (Path.joinpath sample_source "20240703_131144_0418_X_A.mp4")
              (ValueError (NotAValidMember "X" "VideoType")))
    as (Hp & _ & He & Hd).
  - vm_compute. reflexivity.
  - vm_compute. reflexivity.
  - cbv zeta. split; [exact Hp|]. split.
    + apply He. vm_compute. reflexivity.
    + rewrite Hd; [vm_compute; reflexivity|vm_compute; discriminate].
Defined.

Lemma stitch_succeeds_witness :
  let r := stitch engine_ok 2 sample_source out_dir sample_entries
             second_first sample_disk in
  cli_exited r = Returned
  /\ cli_printed r
     = map (fun g => StitchedGroup g (output_file (FileGroup.pk g))) sample_groups.
Proof.
  destruct (stitch_succeeds engine_ok 2 sample_source out_dir sample_entries
              second_first sample_disk sample_groups) as (He & Hp & _).
  - vm_compute. reflexivity.
  - vm_compute. reflexivity.
  - right. eexists. vm_compute. reflexivity.
  - vm_compute. reflexivity.
  - apply completeb_sound. vm_compute. reflexivity.
  - intros ? ? ? ? ?. reflexivity.
  - lia.
  - cbv zeta. split; assumption.
Defined.

Lemma combine_listing_order_witness :
  combine concat_ok sample_cwd sample_source "out.mp4" sample_entries sample_disk
  = combine concat_ok sample_cwd sample_source "out.mp4" (List.rev sample_entries)
      sample_disk.
Proof.
  apply (combine_listing_order concat_ok sample_cwd sample_source "out.mp4"
           sample_entries (List.rev sample_entries) sample_disk).
  apply Permutation_rev.
Defined.

(** ** From the file name to the record *)

Lemma rfind_from_free (c : ascii) (t : string) (i last : Z) :
  free_of c t = true -> Str.rfind_from c t i last = last.
Proof.
  unfold free_of. revert i last. induction t as [|a t IH]; intros i last H;
    [reflexivity|].
  cbn [list_ascii_of_string forallb] in H. apply andb_true_iff in H as [Ha Ht].
  apply negb_true_iff in Ha. cbn [Str.rfind_from]. rewrite Ha. apply IH, Ht.
Qed.

Lemma rfind_from_last (c : ascii) (s t : string) (i last : Z) :
  free_of c t = true ->
  Str.rfind_from c (s +:+ String c t) i last = i + Str.len s.
Proof.
  intros Ht. revert i last. induction s as [|a s IH]; intros i last.
  - rewrite string_app_nil. cbn [Str.rfind_from]. rewrite Ascii.eqb_refl.
    rewrite (rfind_from_free c t _ _ Ht). unfold Str.len. simpl. lia.
  - rewrite string_app_cons. cbn [Str.rfind_from]. rewrite IH.
    unfold Str.len. cbn [String.length]. lia.
Qed.

Lemma substring_prefix (s r : string) : substring 0 (String.length s) (s +:+ r) = s.
Proof.
  induction s as [|a s IH]; [destruct r; reflexivity|].
  rewrite string_app_cons. cbn [String.length substring]. rewrite IH. reflexivity.
Qed.

Lemma substring_whole (t : string) : substring 0 (String.length t) t = t.
Proof. induction t as [|a t IH]; [reflexivity|]. cbn. rewrite IH. reflexivity. Qed.

Lemma substring_suffix (s t : string) :
  substring (String.length s) (String.length t) (s +:+ t) = t.
Proof.
  induction s as [|a s IH]; [apply substring_whole|].
  rewrite string_app_cons. cbn [String.length substring]. exact IH.
Qed.

(** The name before a last suffix that is not empty. *)
Lemma stem_of_name (dir : Path.t) (s t : string) :
  s <> EmptyString -> t <> EmptyString -> free_of "." t = true ->
  Path.stem (Path.joinpath dir (s +:+ String "." t)) = s.
Proof.
  intros Hs Ht Hfree. unfold Path.stem. rewrite name_joinpath.
  unfold Str.rfind. rewrite (rfind_from_last "." s t 0 (-1) Hfree).
  assert (Hlen : Str.len (s +:+ String "." t) = Str.len s + 1 + Str.len t).
  { unfold Str.len. rewrite string_length_app. cbn [String.length]. lia. }
  assert (Hs' : 0 < Str.len s).
  { unfold Str.len. destruct s; [contradiction|]. cbn [String.length]. lia. }
  assert (Ht' : 0 < Str.len t).
  { unfold Str.len. destruct t; [contradiction|]. cbn [String.length]. lia. }
  rewrite Hlen.
  destruct (0 <? 0 + Str.len s) eqn:E1; [|apply Z.ltb_ge in E1; lia].
  destruct (0 + Str.len s <? Str.len s + 1 + Str.len t - 1) eqn:E2;
    [|apply Z.ltb_ge in E2; lia].
  cbn [andb]. unfold Str.prefix_to, Str.len.
  rewrite Z.add_0_l, Nat2Z.id. apply substring_prefix.
Qed.

Lemma lower_dot (c : ascii) : Str.lower c = "."%char -> c = "."%char.
Proof.
  destruct c as [[] [] [] [] [] [] [] []]; intros H;
    first [reflexivity | vm_compute in H; discriminate H].
Qed.

Lemma lower_not_dot (c d : ascii) :
  Str.lower c = d -> d <> "."%char -> Ascii.eqb c "." = false.
Proof.
  intros H Hd. destruct (Ascii.eqb_spec c ".") as [->|]; [|reflexivity].
  vm_compute in H. congruence.
Qed.

Lemma mp4_extension_shape (ext : string) :
  mp4_extension ext = true ->
  exists t, ext = String "." t /\ t <> EmptyString /\ free_of "." t = true
            /\ String.length ext = 4%nat.
Proof.
  unfold mp4_extension. intros H. apply andb_true_iff in H as [Hlen Hlow].
  apply Nat.eqb_eq in Hlen. apply String.eqb_eq in Hlow.
  destruct ext as [|c0 [|c1 [|c2 [|c3 [|? ?]]]]]; try discriminate Hlen.
  cbn [Str.lowercase] in Hlow. injection Hlow as H0 H1 H2 H3.
  apply lower_dot in H0. subst c0.
  exists (String c1 (String c2 (String c3 EmptyString))).
  split; [reflexivity|]. split; [discriminate|]. split; [|reflexivity].
  unfold free_of. cbn [list_ascii_of_string forallb].
  rewrite (lower_not_dot c1 _ H1), (lower_not_dot c2 _ H2), (lower_not_dot c3 _ H3)
    by discriminate.
  reflexivity.
Qed.

(** X18: a file named by a stem of the schema followed by [.mp4] in any
    letter case is matched by the glob of [parse_files], its stem is the
    part before the extension, and it parses to the record of the schema. *)
Theorem schema_names_are_read (src : Path.t) (stem ext : string)
    (r : VideoFileInfo.t) :
  mp4_extension ext = true ->
  schema_record stem (Path.joinpath src (stem +:+ ext)) = Some r ->
  Path.glob_match_mp4 (stem +:+ ext) = true
  /\ Path.stem (Path.joinpath src (stem +:+ ext)) = stem
  /\ VideoFileInfo.from_path (Path.joinpath src (stem +:+ ext)) = Ok r.
Proof.
  intros Hext Hrec.
  assert (Hglob : Path.glob_match_mp4 (stem +:+ ext) = true).
  { pose proof Hext as H. unfold mp4_extension in H.
    apply andb_true_iff in H as [Hlen Hlow]. apply Nat.eqb_eq in Hlen.
    assert (Hsuf : Str.suffix_of 4 (stem +:+ ext) = ext).
    { unfold Str.suffix_of. rewrite string_length_app, Hlen.
      replace (String.length stem + 4 - 4)%nat with (String.length stem) by lia.
      rewrite <- Hlen. apply substring_suffix. }
    unfold Path.glob_match_mp4. rewrite Hsuf, Hlow, string_length_app, Hlen.
    apply andb_true_iff. split; [apply Nat.leb_le; lia|reflexivity]. }
  destruct (mp4_extension_shape ext Hext) as (t & -> & Ht & Hfree & Hlen).
  assert (Hstem : stem <> EmptyString).
  { intros ->. vm_compute in Hrec. discriminate Hrec. }
  assert (Hs : Path.stem (Path.joinpath src (stem +:+ String "." t)) = stem)
    by (apply stem_of_name; assumption).
  split; [exact Hglob|]. split; [exact Hs|].
  apply from_path_schema_record. rewrite Hs. exact Hrec.
Qed.

Lemma schema_names_are_read_witness :
  Path.glob_match_mp4 "20240703_131044_0417_N_A.Mp4" = true
  /\ exists r,
       VideoFileInfo.from_path
         (Path.joinpath sample_source "20240703_131044_0417_N_A.Mp4") = Ok r
       /\ VideoFileInfo.id r = 417.
Proof.
  destruct (schema_names_are_read sample_source "20240703_131044_0417_N_A" ".Mp4"
              (VideoFileInfo.mk (Py.mk_datetime 2024 7 3 13 10 44) 417
                 VideoType.NORMAL Position.FRONT
                 (Path.joinpath sample_source "20240703_131044_0417_N_A.Mp4")))
    as (Hglob & _ & Hparse).
  - vm_compute. reflexivity.
  - vm_compute. reflexivity.
  - split; [exact Hglob|]. eexists. split; [exact Hparse|reflexivity].
Defined.

(** ** The deviations the parser rejects *)

















